(** * Library management system: the tables and the menu operations of main.py

    The program keeps three pandas DataFrames (books, users, logs) for the
    length of one interactive session.  A DataFrame is modelled as the list
    of its rows in index order, a row as a record with one field per column,
    and every operation as a function from the tables and the values typed
    at the prompts to the outcome it prints and the tables it returns. *)

From Stdlib Require Import Ascii.
From stdpp Require Import prelude strings pretty sorting.
From stdpp Require gmap.

Local Open Scope Z_scope.

(** ** Data model *)

(** A [pd.Timestamp]: microseconds since the epoch ([datetime.today()] has
    microsecond resolution). *)
Definition timestamp : Type := Z.

(** Microseconds in one day: the unit of [Timedelta.days]. *)
Definition DAY : Z := 86400000000.

(** FINE_PER_DAY = 5 *)
Definition FINE_PER_DAY : Z := 5.

(** A row of books.csv:
    BookID, Title, Author, TotalCopies, AvailableCopies.  BookID, Title and
    Author are the [str] read at the prompts of [add_book]; the copy counts
    are the exact integers Python's [int] gives.  pandas keeps them exact as
    long as every count of the column is within the signed 64-bit range
    ([int64] below); a column that has taken a count of 2^63 or more is
    float64, on which adding or taking 1 can leave a value as it is.  The
    hypothesis [counts_in_int64] below names that range. *)
Module Book.
Record t : Type := mk {
  BookID : string;
  Title : string;
  Author : string;
  TotalCopies : Z;
  AvailableCopies : Z
}.

(** The cell update [AvailableCopies += d] on one row. *)
Definition adjust (d : Z) (b : t) : t :=
  mk (BookID b) (Title b) (Author b) (TotalCopies b) (AvailableCopies b + d).
End Book.

(** A row of users.csv, the table of loans:
    UserID, Name, BookID, IssueDate, ReturnDate.  [None] is [pd.NaT]. *)
Module Loan.
Record t : Type := mk {
  UserID : string;
  Name : string;
  BookID : string;
  IssueDate : timestamp;
  ReturnDate : option timestamp
}.

(** The cell update [ReturnDate = today] on one row. *)
Definition close (today : timestamp) (l : t) : t :=
  mk (UserID l) (Name l) (BookID l) (IssueDate l) (Some today).
End Loan.

(** A row of logs.csv: UserID, BookID, Action, Date. *)
Module Log.
Record t : Type := mk {
  UserID : string;
  BookID : string;
  Action : string;
  Date : timestamp
}.
End Log.

(** The three DataFrames that [main] threads through the menu loop, with
    the cells a session files itself: every id is the [str] typed at a
    prompt.  These are the tables of a session that [ensure_files] started
    on fresh files ([empty_tables]), and of one that [load_data] started
    when no id field of the files reads as a number or as a missing value.
    A file whose id column reads as numbers is loaded with int64 ids, which
    no typed [str] equals; such frames are not of this type.  What
    [load_data] makes of a saved table is modelled cell by cell in the part
    on [load_data] and [save_data], and the membership test of [add_book]
    and [issue_book] on loaded cells is [isin_cells]. *)
Record tables : Type := Tables {
  books : list Book.t;
  users : list Loan.t;
  logs : list Log.t
}.

(** ** The DataFrame idioms the program uses *)

Section frame.
Context {A : Type}.

(** [df[mask]]: the rows where the boolean mask holds, in index order. *)
Definition select (P : A → Prop) `{!∀ r, Decision (P r)} (df : list A) : list A :=
  filter P df.

(** [mask.any()] *)
Definition any (P : A → Prop) `{!∀ r, Decision (P r)} (df : list A) : bool :=
  bool_decide (Exists P df).

(** [df.loc[mask, col] = ...] and [df.loc[mask, col] += d]: the cell
    update [f] is applied to every row the mask selects; the other rows
    and the index are left as they are. *)
Definition loc_update (P : A → Prop) `{!∀ r, Decision (P r)} (f : A → A)
    (df : list A) : list A :=
  (λ r, if decide (P r) then f r else r) <$> df.

(** [pd.concat([df, pd.DataFrame([row])], ignore_index=True)] *)
Definition concat_row (df : list A) (row : A) : list A := df ++ [row].
End frame.

(** [x in df[col].values] *)
Definition isin (x : string) (col : list string) : bool := bool_decide (x ∈ col).

(** ** Outcomes *)

(** What an operation reports.  The error kinds carry the names the
    specification gives them; [message] is the text the code prints.
    [IndexError] is what [.iloc[0]] raises on an empty selection. *)
Inductive outcome : Type :=
  | BookAdded
  | DuplicateID
  | InvalidInput
  | BookIssued
  | NotFound
  | NoAvailability
  | BookReturned (fine : Z)
  | NoActiveLoan
  | IndexError.

Definition message (o : outcome) : list string :=
  match o with
  | BookAdded => ["Book added successfully."]
  | DuplicateID => ["Book ID already exists."]
  | InvalidInput => ["Invalid number of copies."]
  | BookIssued => ["Book issued."]
  | NotFound => ["Book not found."]
  | NoAvailability => ["No copies available."]
  | BookReturned fine =>
      "Book returned." ::
      (if bool_decide (0 < fine) then ["Late return. Fine: ₹" +:+ pretty fine] else [])
  | NoActiveLoan => ["No active issue found."]
  | IndexError => ["IndexError: single positional indexer is out-of-bounds"]
  end.

(** The user-input-driven errors of the specification. *)
Definition is_user_error (o : outcome) : bool :=
  match o with
  | DuplicateID | InvalidInput | NotFound | NoAvailability | NoActiveLoan => true
  | _ => false
  end.

(** ** add_book *)

(** [book_id], [title] and [author] are the stripped lines read at the
    prompts; [copies] is the result of [int(input(...).strip())], [None] when
    it raises ValueError.  Title, author and copies are read only after the
    duplicate check has passed. *)
Definition add_book (books : list Book.t) (book_id title author : string)
    (copies : option Z) : outcome * list Book.t :=
  if isin book_id (Book.BookID <$> books) then (DuplicateID, books)
  else
    match copies with
    | None => (InvalidInput, books)
    | Some copies =>
        if bool_decide (copies < 1) then (InvalidInput, books)
        else (BookAdded, concat_row books (Book.mk book_id title author copies copies))
    end.

(** ** issue_book *)

Definition issue_book (s : tables) (user_id name book_id : string)
    (issue_date : timestamp) : outcome * tables :=
  if negb (isin book_id (Book.BookID <$> books s)) then (NotFound, s)
  else
    match head (select (λ b, Book.BookID b = book_id) (books s)) with
    | None => (IndexError, s)
    | Some book_row =>
        if bool_decide (Book.AvailableCopies book_row ≤ 0) then (NoAvailability, s)
        else
          (BookIssued,
           Tables
             (loc_update (λ b, Book.BookID b = book_id) (Book.adjust (-1)) (books s))
             (concat_row (users s) (Loan.mk user_id name book_id issue_date None))
             (concat_row (logs s) (Log.mk user_id book_id "Issued" issue_date)))
    end.

(** ** return_book *)

(** The mask of [return_book]:
    (UserID == user_id) & (BookID == book_id) & ReturnDate.isna() *)
Definition active (user_id book_id : string) (l : Loan.t) : Prop :=
  Loan.UserID l = user_id ∧ Loan.BookID l = book_id ∧ Loan.ReturnDate l = None.

Global Instance active_dec user_id book_id l : Decision (active user_id book_id l).
Proof. unfold active. apply _. Defined.

(** [(today - issue_date).days]: a Timedelta is normalised so that its
    seconds and microseconds are non-negative, hence [.days] is the floor of
    the difference divided by one day. *)
Definition return_days (today issue_date : timestamp) : Z :=
  (today - issue_date) `div` DAY.

(** [max(0, (return_days - 14) * FINE_PER_DAY)] *)
Definition fine_of (return_days : Z) : Z :=
  0 `max` ((return_days - 14) * FINE_PER_DAY).

Definition return_book (s : tables) (user_id book_id : string)
    (today : timestamp) : outcome * tables :=
  let mask := active user_id book_id in
  if negb (any mask (users s)) then (NoActiveLoan, s)
  else
    match head (Loan.IssueDate <$> select mask (users s)) with
    | None => (IndexError, s)
    | Some issue_date =>
        let fine := fine_of (return_days today issue_date) in
        (BookReturned fine,
         Tables
           (loc_update (λ b, Book.BookID b = book_id) (Book.adjust 1) (books s))
           (loc_update mask (Loan.close today) (users s))
           (concat_row (logs s) (Log.mk user_id book_id "Returned" today)))
    end.

(** ** visualize_top_books *)

(** The distinct values of a column in order of first appearance, the order
    in which [value_counts] meets its keys. *)
Fixpoint unique (col : list string) : list string :=
  match col with
  | [] => []
  | x :: col => x :: filter (λ y, y ≠ x) (unique col)
  end.

(** The number of rows of a column that hold [x]. *)
Definition occurrences (x : string) (col : list string) : nat :=
  length (filter (λ y, y = x) col).

(** The order of [value_counts]: larger counts first. *)
Definition by_count (a b : string * nat) : Prop := (b.2 ≤ a.2)%nat.

Global Instance by_count_dec a b : Decision (by_count a b).
Proof. unfold by_count. apply _. Defined.

(** [sort_values(ascending=False)]: insertion into a list that is already
    in decreasing order, before the first entry that is not larger, so that
    entries with equal counts keep the order in which they arrive. *)
Fixpoint insert_by_count (a : string * nat) (l : list (string * nat))
    : list (string * nat) :=
  match l with
  | [] => [a]
  | b :: l' => if decide (by_count a b) then a :: l else b :: insert_by_count a l'
  end.

Definition sort_values (l : list (string * nat)) : list (string * nat) :=
  foldr insert_by_count [] l.

(** [Series.value_counts()]: one entry per distinct value with the number of
    rows that hold it, sorted by decreasing count. *)
Definition value_counts (col : list string) : list (string * nat) :=
  sort_values ((λ x, (x, occurrences x col)) <$> unique col).

(** [Series.nlargest(n)] on a series already in decreasing order. *)
Definition nlargest (n : nat) (counts : list (string * nat)) : list (string * nat) :=
  take n counts.

(** [top_books = users["BookID"].value_counts().nlargest(5)] *)
Definition top_books (users : list Loan.t) : list (string * nat) :=
  nlargest 5 (value_counts (Loan.BookID <$> users)).

(** What [Series.get] returns: a scalar, or the sub-series of every title
    filed under a repeated index key. *)
Inductive label : Type :=
  | Scalar (text : string)
  | Series (titles : list string).

(** [book_titles.get(bid, bid)] with
    [book_titles = books.set_index("BookID")["Title"]]. *)
Definition get_title (books : list Book.t) (bid : string) : label :=
  match select (λ b, Book.BookID b = bid) books with
  | [] => Scalar bid
  | [b] => Scalar (Book.Title b)
  | bs => Series (Book.Title <$> bs)
  end.

(** The bars handed to [plt.bar(labels, top_books.values)]; [None] when the
    function prints "No borrowing records yet." and returns. *)
Definition visualize_top_books (users : list Loan.t) (books : list Book.t)
    : option (list (label * nat)) :=
  match users with
  | [] => None
  | _ =>
      let top := top_books users in
      let labels := get_title books <$> top.*1 in
      Some (zip labels top.*2)
  end.

(** ** main: the menu loop *)

(** One pass through the loop body: the choice typed at the menu together
    with the lines the chosen operation reads and, for issue and return, the
    reading of [datetime.today()]. *)
Inductive choice : Type :=
  | MenuAdd (book_id title author : string) (copies : option Z)
  | MenuIssue (user_id name book_id : string) (now : timestamp)
  | MenuReturn (user_id book_id : string) (now : timestamp)
  | MenuView
  | MenuTop
  | MenuExport
  | MenuExit
  | MenuOther.

(** Where control is after a pass: back at the prompt with the tables, or
    out of the loop after [save_data] was handed the tables. *)
Inductive session : Type :=
  | AwaitingChoice (s : tables)
  | Exited (saved : tables).

(** Choices 4, 5 and 6 and an unknown choice leave the tables as they are.
    Choice 5 is taken to come back from [visualize_top_books]: the call
    raises inside [plt.bar] when [get_title] gives a [Series] for a charted
    BookID (one filed in two rows of Books), [main] has no handler, and the
    run ends there without [save_data].  Such a run is a run of this loop
    cut short: what holds of every state a run passes through holds of it,
    while that a run goes on, or reaches choice 7, is only said of runs
    that do. *)
Definition menu_step (c : choice) (s : tables) : option outcome * session :=
  match c with
  | MenuAdd book_id title author copies =>
      let '(o, books') := add_book (books s) book_id title author copies in
      (Some o, AwaitingChoice (Tables books' (users s) (logs s)))
  | MenuIssue user_id name book_id now =>
      let '(o, s') := issue_book s user_id name book_id now in
      (Some o, AwaitingChoice s')
  | MenuReturn user_id book_id now =>
      let '(o, s') := return_book s user_id book_id now in
      (Some o, AwaitingChoice s')
  | MenuView | MenuTop | MenuExport | MenuOther => (None, AwaitingChoice s)
  | MenuExit => (None, Exited s)
  end.

Fixpoint main_loop (inputs : list choice) (s : tables) : session :=
  match inputs with
  | [] => AwaitingChoice s
  | c :: inputs =>
      match (menu_step c s).2 with
      | AwaitingChoice s' => main_loop inputs s'
      | Exited saved => Exited saved
      end
  end.

(** The tables [load_data] returns when [ensure_files] has just created the
    three files with their headers and no rows. *)
Definition empty_tables : tables := Tables [] [] [].

(** ** load_data and save_data *)

(** A cell of a DataFrame as pandas holds it: text, a number, a timestamp,
    or the missing value (NaN, NaT). *)
Inductive cell : Type :=
  | Str (text : string)
  | Num (n : Z)
  | Stamp (t : timestamp)
  | Missing.

Record frame : Type := Frame {
  columns : list string;
  rows : list (list cell)
}.

(** A CSV file after tokenising: the header line and the fields of each
    record.  The writer's delimiting and minimal quoting and the reader's
    tokeniser are taken to undo each other and are not modelled: what
    happens to a value happens between a cell and its field. *)
Record csv : Type := Csv {
  header : list string;
  records : list (list string)
}.

(** The tables of a session as frames: every cell typed at a prompt is a
    [str], the copy counts are [int], the dates are Timestamps or NaT. *)
Definition books_frame (books : list Book.t) : frame :=
  Frame ["BookID"; "Title"; "Author"; "TotalCopies"; "AvailableCopies"]
    ((λ b, [Str (Book.BookID b); Str (Book.Title b); Str (Book.Author b);
            Num (Book.TotalCopies b); Num (Book.AvailableCopies b)]) <$> books).

Definition users_frame (users : list Loan.t) : frame :=
  Frame ["UserID"; "Name"; "BookID"; "IssueDate"; "ReturnDate"]
    ((λ l, [Str (Loan.UserID l); Str (Loan.Name l); Str (Loan.BookID l);
            Stamp (Loan.IssueDate l);
            from_option Stamp Missing (Loan.ReturnDate l)]) <$> users).

Definition logs_frame (logs : list Log.t) : frame :=
  Frame ["UserID"; "BookID"; "Action"; "Date"]
    ((λ e, [Str (Log.UserID e); Str (Log.BookID e); Str (Log.Action e);
            Stamp (Log.Date e)]) <$> logs).

Definition frames (s : tables) : frame * frame * frame :=
  (books_frame (books s), users_frame (users s), logs_frame (logs s)).

(** The strings [read_csv] takes for a missing value (its default
    [na_values], [keep_default_na=True]). *)
Definition na_values : list string :=
  [""; "#N/A"; "#N/A N/A"; "#NA"; "-1.#IND"; "-1.#QNAN"; "-NaN"; "-nan";
   "1.#IND"; "1.#QNAN"; "<NA>"; "N/A"; "NA"; "NULL"; "NaN"; "None"; "n/a";
   "nan"; "null"].

Definition digit (c : ascii) : option Z :=
  let n := Z.of_nat (nat_of_ascii c) in
  if bool_decide (48 ≤ n ≤ 57) then Some (n - 48) else None.

(** The value of a run of decimal digits read after [acc]; [None] when a
    character is not a digit. *)
Fixpoint digits (acc : Z) (s : string) : option Z :=
  match s with
  | EmptyString => Some acc
  | String c s => d ← digit c; digits (10 * acc + d) s
  end.

(** A field that reads as an integer: an optional sign and one digit or
    more. *)
Definition int_literal (s : string) : option Z :=
  match s with
  | EmptyString => None
  | String "-"%char (String _ _ as s) => Z.opp <$> digits 0 s
  | String "+"%char (String _ _ as s) => digits 0 s
  | _ => digits 0 s
  end.

Section storage.
(** The text pandas writes for a Timestamp and the reading of such a text
    under [parse_dates]; the calendar arithmetic is left open. *)
Variable format_timestamp : timestamp → string.
Variable parse_timestamp : string → option timestamp.

(** [to_csv] of one cell: text as it is, numbers in decimal, a missing
    value as the empty field ([na_rep=""]). *)
Definition to_csv_cell (c : cell) : string :=
  match c with
  | Str text => text
  | Num n => pretty n
  | Stamp t => format_timestamp t
  | Missing => ""
  end.

(** [df.to_csv(path, index=False)] *)
Definition to_csv (df : frame) : csv :=
  Csv (columns df) ((λ r : list cell, to_csv_cell <$> r) <$> rows df).

(** The cells [read_csv] makes of one column of fields when no dtype is
    given: fields among [na_values] are missing; when every other field
    reads as an integer the column is numeric; otherwise the other fields
    stay text.  Columns of decimal fractions, of booleans and of integers
    beyond 64 bits, which pandas treats in ways of their own, are outside
    this model; so is a column of integers beside missing fields, which
    pandas holds as float64 and writes back with a decimal point (1984.0),
    where the cells here are [Num] beside [Missing]. *)
Definition infer_column (fields : list string) : list cell :=
  match mapM (λ f, if bool_decide (f ∈ na_values) then Some Missing
                   else Num <$> int_literal f) fields with
  | Some cells => cells
  | None => (λ f, if bool_decide (f ∈ na_values) then Missing else Str f) <$> fields
  end.

(** A column named in [parse_dates]: missing fields are NaT, and the
    column becomes Timestamps when every other field reads as a date;
    otherwise it is left as [infer_column] has it. *)
Definition infer_date_column (fields : list string) : list cell :=
  match mapM (λ f, if bool_decide (f ∈ na_values) then Some Missing
                   else Stamp <$> parse_timestamp f) fields with
  | Some cells => cells
  | None => infer_column fields
  end.

(** [pd.read_csv(path, parse_dates=...)]: the header names the columns, a
    field a short record lacks is missing, and each column is converted
    on its own. *)
Definition read_csv (parse_dates : list string) (file : csv) : frame :=
  let cols :=
    imap (λ i name,
            let fields := (λ r, default "" (r !! i)) <$> records file in
            if isin name parse_dates then infer_date_column fields
            else infer_column fields)
         (header file) in
  Frame (header file)
    ((λ j, (λ col, default Missing (col !! j)) <$> cols)
       <$> seq 0 (length (records file))).

(** [save_data]: the contents of books.csv, users.csv and logs.csv. *)
Definition save_data (s : frame * frame * frame) : csv * csv * csv :=
  let '(books, users, logs) := s in (to_csv books, to_csv users, to_csv logs).

(** [load_data] *)
Definition load_data (files : csv * csv * csv) : frame * frame * frame :=
  let '(books_file, users_file, logs_file) := files in
  (read_csv [] books_file,
   read_csv ["IssueDate"; "ReturnDate"] users_file,
   read_csv ["Date"] logs_file).
End storage.

(** ** The id tests on the tables of a restarted session *)

(** [df[name].values]: the cells of a column in index order; [None] where
    the frame has no such column (KeyError). *)
Definition column_values (name : string) (df : frame) : option (list cell) :=
  match list_find (λ c, c = name) (columns df) with
  | Some (i, _) => Some ((λ r, default Missing (r !! i)) <$> rows df)
  | None => None
  end.

(** [cell == x] for the [str] typed at a prompt: a text cell equals it when
    it is the same text; a number and a missing value equal no [str].  (The
    id columns are not in [parse_dates], so they hold no Timestamp.) *)
Definition cell_is (x : string) (c : cell) : bool :=
  match c with
  | Str text => bool_decide (text = x)
  | Num _ | Stamp _ | Missing => false
  end.

(** [x in df[col].values] on the cells of a loaded column. *)
Definition isin_cells (x : string) (col : list cell) : bool :=
  existsb (cell_is x) col.

(** ** The vocabulary of the properties *)

(** What both operations keep of the Books table: the rows and their order,
    every BookID, Title, Author and TotalCopies, and AvailableCopies of the
    rows of every other book. *)
Definition same_catalogue (book_id : string) (before after : list Book.t) : Prop :=
  length after = length before
  ∧ ∀ i, match before !! i, after !! i with
         | Some b, Some b' =>
             Book.BookID b' = Book.BookID b
             ∧ Book.Title b' = Book.Title b
             ∧ Book.Author b' = Book.Author b
             ∧ Book.TotalCopies b' = Book.TotalCopies b
             ∧ (Book.BookID b ≠ book_id →
                Book.AvailableCopies b' = Book.AvailableCopies b)
         | None, None => True
         | _, _ => False
         end.

(** The loans of a book that are still out: rows of the loans table with
    that BookID and no ReturnDate. *)
Definition outstanding (book_id : string) (users : list Loan.t) : Z :=
  Z.of_nat (length (select (λ l, Loan.BookID l = book_id ∧ Loan.ReturnDate l = None)
                      users)).

(** The invariant of the data model, for every row of the Books table:
    AvailableCopies = TotalCopies - outstanding loans, and the outstanding
    loans do not exceed TotalCopies. *)
Definition accounted (s : tables) : Prop :=
  Forall (λ b, Book.AvailableCopies b
               = Book.TotalCopies b - outstanding (Book.BookID b) (users s)
               ∧ outstanding (Book.BookID b) (users s) ≤ Book.TotalCopies b)
         (books s).

Global Instance accounted_dec s : Decision (accounted s).
Proof. unfold accounted. apply _. Defined.

(** The tables a pass of the menu loop leaves. *)
Definition tables_of (x : session) : tables :=
  match x with
  | AwaitingChoice s => s
  | Exited s => s
  end.

(** The states from which the invariant is kept: BookIDs are unique, every
    outstanding loan is of a book on file, and the invariant holds. *)
Definition well_formed (s : tables) : Prop :=
  NoDup (Book.BookID <$> books s)
  ∧ (∀ l, l ∈ users s → Loan.ReturnDate l = None →
          Loan.BookID l ∈ Book.BookID <$> books s)
  ∧ accounted s.

(** A return that finds at most one matching loan row; every other choice
    qualifies. *)
Definition at_most_one_match (c : choice) (s : tables) : Prop :=
  match c with
  | MenuReturn user_id book_id _ =>
      (length (select (active user_id book_id) (users s)) ≤ 1)%nat
  | _ => True
  end.

(** A run of the menu in which every return finds at most one matching
    loan row, from the tables [s] on. *)
Fixpoint single_returns (inputs : list choice) (s : tables) : Prop :=
  match inputs with
  | [] => True
  | c :: inputs =>
      at_most_one_match c s ∧ single_returns inputs (tables_of (menu_step c s).2)
  end.

(** ** The files: ensure_files, export_logs and the exit of main *)

(** [os.path.join(DATA_DIR, name)] on a POSIX system. *)
Definition path_join (dir name : string) : string := dir +:+ "/" +:+ name.

Definition DATA_DIR : string := "data".
Definition BOOKS_FILE : string := path_join DATA_DIR "books.csv".
Definition USERS_FILE : string := path_join DATA_DIR "users.csv".
Definition LOGS_FILE : string := path_join DATA_DIR "logs.csv".

(** [export_path] of [export_logs]. *)
Definition EXPORT_FILE : string := path_join DATA_DIR "user_logs_export.csv".

(** The column lists of [ensure_files]. *)
Definition BOOKS_COLUMNS : list string :=
  ["BookID"; "Title"; "Author"; "TotalCopies"; "AvailableCopies"].
Definition USERS_COLUMNS : list string :=
  ["UserID"; "Name"; "BookID"; "IssueDate"; "ReturnDate"].
Definition LOGS_COLUMNS : list string := ["UserID"; "BookID"; "Action"; "Date"].

(** The files of the program, by path: [None] is a path at which
    [os.path.exists] is false.  Directories are not modelled
    ([os.makedirs(DATA_DIR, exist_ok=True)] changes no file). *)
Abbreviation file_system := (gmap.gmap string csv).

Section files.
Variable format_timestamp : timestamp → string.
Variable parse_timestamp : string → option timestamp.

(** [if not os.path.exists(path):
       pd.DataFrame(columns=cols).to_csv(path, index=False)] *)
Definition create_if_missing (path : string) (cols : list string)
    (fs : file_system) : file_system :=
  match fs !! path with
  | Some _ => fs
  | None => <[path := to_csv format_timestamp (Frame cols [])]> fs
  end.

Definition ensure_files (fs : file_system) : file_system :=
  create_if_missing LOGS_FILE LOGS_COLUMNS
    (create_if_missing USERS_FILE USERS_COLUMNS
       (create_if_missing BOOKS_FILE BOOKS_COLUMNS fs)).

(** [load_data] on the files; [None] when [read_csv] finds no file at one
    of the three paths (FileNotFoundError). *)
Definition load_files (fs : file_system) : option (frame * frame * frame) :=
  books_file ← fs !! BOOKS_FILE;
  users_file ← fs !! USERS_FILE;
  logs_file ← fs !! LOGS_FILE;
  Some (load_data parse_timestamp (books_file, users_file, logs_file)).

(** [save_data] on the files: each of the three is overwritten. *)
Definition save_files (s : tables) (fs : file_system) : file_system :=
  let '(books_file, users_file, logs_file) :=
    save_data format_timestamp (frames s) in
  <[LOGS_FILE := logs_file]>
    (<[USERS_FILE := users_file]> (<[BOOKS_FILE := books_file]> fs)).

(** [export_logs]: [logs.to_csv(export_path, index=False)] *)
Definition export_logs (logs : list Log.t) (fs : file_system) : file_system :=
  <[EXPORT_FILE := to_csv format_timestamp (logs_frame logs)]> fs.

(** What a pass of the menu loop writes: choice 6 exports the logs, choice 7
    saves the tables; no other choice touches a file. *)
Definition menu_writes (c : choice) (s : tables) (fs : file_system) : file_system :=
  match c with
  | MenuExport => export_logs (logs s) fs
  | MenuExit => save_files s fs
  | _ => fs
  end.

(** The menu loop of [main] with the files it leaves. *)
Fixpoint main_files (inputs : list choice) (s : tables) (fs : file_system)
    : session * file_system :=
  match inputs with
  | [] => (AwaitingChoice s, fs)
  | c :: inputs =>
      let fs' := menu_writes c s fs in
      match (menu_step c s).2 with
      | AwaitingChoice s' => main_files inputs s' fs'
      | Exited saved => (Exited saved, fs')
      end
  end.
End files.

(** ** The vocabulary of the session properties *)

(** The file [ensure_files] writes at a path where none exists: the header
    of the table kept there, with no record; nothing at any other path. *)
Definition fresh_file (path : string) : option csv :=
  if decide (path = BOOKS_FILE) then Some (Csv BOOKS_COLUMNS [])
  else if decide (path = USERS_FILE) then Some (Csv USERS_COLUMNS [])
  else if decide (path = LOGS_FILE) then Some (Csv LOGS_COLUMNS [])
  else None.


(** A later loans table has every row of an earlier one at its place, with
    the same user, name, book and IssueDate, and with the ReturnDate it had
    if it had one. *)
Definition loans_extend (before after : list Loan.t) : Prop :=
  ∀ i l, before !! i = Some l →
    ∃ l', after !! i = Some l'
          ∧ Loan.UserID l' = Loan.UserID l ∧ Loan.Name l' = Loan.Name l
          ∧ Loan.BookID l' = Loan.BookID l
          ∧ Loan.IssueDate l' = Loan.IssueDate l
          ∧ (∀ t, Loan.ReturnDate l = Some t → Loan.ReturnDate l' = Some t).

(** (UserID, BookID, IssueDate) of every loan row, in order. *)
Definition loan_records (users : list Loan.t) : list (string * string * timestamp) :=
  (λ l, (Loan.UserID l, Loan.BookID l, Loan.IssueDate l)) <$> users.

(** (UserID, BookID, Date) of every "Issued" log entry, in order. *)
Definition issue_records (logs : list Log.t) : list (string * string * timestamp) :=
  (λ e, (Log.UserID e, Log.BookID e, Log.Date e))
    <$> filter (λ e, Log.Action e = "Issued") logs.


Global Instance choice_eq_dec : EqDecision choice.
Proof. solve_decision. Defined.

(** Requests to issue one book, as the menu reads them. *)
Definition issue_requests (book_id : string)
    (requests : list (string * string * timestamp)) : list choice :=
  (λ r, MenuIssue r.1.1 r.1.2 book_id r.2) <$> requests.

(** The signed 64-bit integers, the range of an [int64] column. *)
Definition int64 (n : Z) : Prop := - 2 ^ 63 ≤ n < 2 ^ 63.

(** Every copy count of the Books table is within the range of an [int64]
    column, where pandas adds and subtracts exactly. *)
Definition counts_in_int64 (s : tables) : Prop :=
  Forall (λ b, int64 (Book.TotalCopies b) ∧ int64 (Book.AvailableCopies b))
         (books s).

(** Case analysis on the choice typed at the menu. *)
Ltac by_choice c :=
  destruct c as [book_id title author copies|user_id name book_id now
                |user_id book_id now| | | | |]; simpl in *; try done.

(** * Properties *)

(** ** The DataFrame idioms *)

Section frame_facts.
Context {A : Type} (P : A → Prop) `{!∀ r, Decision (P r)}.

Lemma loc_update_length f (df : list A) :
  length (loc_update P f df) = length df.
Proof. unfold loc_update. by rewrite length_fmap. Qed.

Lemma loc_update_lookup f (df : list A) i :
  loc_update P f df !! i = (λ r, if decide (P r) then f r else r) <$> df !! i.
Proof. unfold loc_update. by rewrite list_lookup_fmap. Qed.

Lemma Forall_loc_update (Q : A → Prop) f (df : list A) :
  Forall (λ r, Q (if decide (P r) then f r else r)) df →
  Forall Q (loc_update P f df).
Proof. unfold loc_update. intros Hall. by apply Forall_fmap. Qed.

Lemma any_true (df : list A) : any P df = true ↔ ∃ r, r ∈ df ∧ P r.
Proof. unfold any. by rewrite bool_decide_eq_true, Exists_exists. Qed.

Lemma any_false (df : list A) : any P df = false ↔ select P df = [].
Proof.
  unfold any, select. rewrite bool_decide_eq_false, Exists_exists. split.
  - intros Hno. destruct (filter P df) as [|r rest] eqn:Hsel; [done|].
    assert (r ∈ filter P df) as Hin by (rewrite Hsel; left).
    destruct (proj1 (list_elem_of_filter _ _ _) Hin). naive_solver.
  - intros Hsel (r & Hin & Hr). by eapply filter_nil_not_elem_of.
Qed.

Lemma select_head_elem (df : list A) r :
  head (select P df) = Some r → r ∈ df ∧ P r.
Proof.
  intros Hr%head_Some_elem_of. apply list_elem_of_filter in Hr. tauto.
Qed.
End frame_facts.

Lemma isin_true x col : isin x col = true ↔ x ∈ col.
Proof. unfold isin. by rewrite bool_decide_eq_true. Qed.

Lemma isin_false x col : isin x col = false ↔ x ∉ col.
Proof. unfold isin. by rewrite bool_decide_eq_false. Qed.

(** A key of the BookID column selects at least one row. *)
Lemma select_book_nonempty (books : list Book.t) book_id :
  book_id ∈ Book.BookID <$> books →
  ∃ book_row, head (select (λ b, Book.BookID b = book_id) books) = Some book_row.
Proof.
  intros (b & -> & Hb)%list_elem_of_fmap.
  destruct (select _ books) as [|r rest] eqn:Hsel; [|by exists r].
  exfalso. by eapply (filter_nil_not_elem_of _ _ b).
Qed.

(** ** add_book *)

(** On a Books table whose BookIDs are typed text: a BookID that is already
    a row's is refused as [DuplicateID]; otherwise a copy count that is not a
    number or is below 1 is refused as [InvalidInput]; both leave the Books
    table as it was.  Otherwise one row is appended, with
    TotalCopies = AvailableCopies = copies. *)
Lemma add_book_spec (books : list Book.t) (book_id title author : string)
    (copies : option Z) :
  let r := add_book books book_id title author copies in
  (book_id ∈ Book.BookID <$> books → r = (DuplicateID, books))
  ∧ (book_id ∉ Book.BookID <$> books →
     (copies = None ∨ ∃ n, copies = Some n ∧ n < 1) →
     r = (InvalidInput, books))
  ∧ (book_id ∉ Book.BookID <$> books →
     ∀ n, copies = Some n → 1 ≤ n →
     ∃ b, r = (BookAdded, books ++ [b])
          ∧ Book.BookID b = book_id ∧ Book.Title b = title
          ∧ Book.Author b = author
          ∧ Book.TotalCopies b = n ∧ Book.AvailableCopies b = n)
  ∧ (r.1 ≠ BookAdded → r.2 = books).
Proof.
  unfold add_book. repeat split.
  - intros Hdup%isin_true. by rewrite Hdup.
  - intros Hnew%isin_false Hbad. rewrite Hnew.
    destruct Hbad as [-> | (n & -> & Hn)]; [done|].
    by rewrite bool_decide_eq_true_2.
  - intros Hnew%isin_false n -> Hn. rewrite Hnew.
    rewrite bool_decide_eq_false_2 by lia.
    by eexists (Book.mk _ _ _ _ _).
  - destruct (isin _ _); [done|].
    destruct copies as [n|]; [|done]. by case_bool_decide.
Qed.

(** X23.  In a session started from the empty tables, with every copy
    count on file and the count typed within the 64-bit range, add_book
    refuses a BookID on file as [DuplicateID], refuses a copy count that is
    not a number or is below 1 as [InvalidInput], both without a change to
    the Books table, and otherwise appends exactly one row with
    TotalCopies = AvailableCopies = copies. *)
Theorem add_book_in_session (inputs : list choice) (book_id title author : string)
    (copies : option Z) :
  let s := tables_of (main_loop inputs empty_tables) in
  counts_in_int64 s →
  from_option int64 True copies →
  let r := add_book (books s) book_id title author copies in
  (book_id ∈ Book.BookID <$> books s → r = (DuplicateID, books s))
  ∧ (book_id ∉ Book.BookID <$> books s →
     (copies = None ∨ ∃ n, copies = Some n ∧ n < 1) →
     r = (InvalidInput, books s))
  ∧ (book_id ∉ Book.BookID <$> books s →
     ∀ n, copies = Some n → 1 ≤ n →
     ∃ b, r = (BookAdded, books s ++ [b])
          ∧ Book.BookID b = book_id ∧ Book.Title b = title
          ∧ Book.Author b = author
          ∧ Book.TotalCopies b = n ∧ Book.AvailableCopies b = n)
  ∧ (r.1 ≠ BookAdded → r.2 = books s).
Proof. intros s _ _. apply add_book_spec. Qed.

Lemma add_book_in_session_witness :
  add_book [Book.mk "B1" "Emma" "Austen" 2 1] "B1" "Dune" "Herbert" (Some 3)
  = (DuplicateID, [Book.mk "B1" "Emma" "Austen" 2 1]).
Proof.
  refine (proj1 (add_book_in_session
            [MenuAdd "B1" "Emma" "Austen" (Some 2); MenuIssue "U1" "Alice" "B1" 1000]
            "B1" "Dune" "Herbert" (Some 3) _ _) _).
  - apply Forall_singleton. by vm_compute.
  - by vm_compute.
  - vm_compute. left.
Defined.

(** ** issue_book *)

Lemma issue_book_unfold s user_id name book_id now book_row :
  head (select (λ b, Book.BookID b = book_id) (books s)) = Some book_row →
  issue_book s user_id name book_id now =
    if bool_decide (Book.AvailableCopies book_row ≤ 0) then (NoAvailability, s)
    else (BookIssued,
          Tables
            (loc_update (λ b, Book.BookID b = book_id) (Book.adjust (-1)) (books s))
            (users s ++ [Loan.mk user_id name book_id now None])
            (logs s ++ [Log.mk user_id book_id "Issued" now])).
Proof.
  intros Hrow. unfold issue_book.
  destruct (select_head_elem _ _ _ Hrow) as [Hin Hid].
  assert (isin book_id (Book.BookID <$> books s) = true) as ->.
  { apply isin_true, list_elem_of_fmap. eauto. }
  simpl. by rewrite Hrow.
Qed.

(** The position-wise effect of [AvailableCopies += d] on the rows whose
    BookID is [book_id]. *)
Lemma adjust_books_lookup (books : list Book.t) book_id d i b :
  books !! i = Some b →
  ∃ b', loc_update (λ b, Book.BookID b = book_id) (Book.adjust d) books !! i = Some b'
        ∧ Book.BookID b' = Book.BookID b ∧ Book.Title b' = Book.Title b
        ∧ Book.Author b' = Book.Author b
        ∧ Book.TotalCopies b' = Book.TotalCopies b
        ∧ Book.AvailableCopies b' =
            Book.AvailableCopies b + (if decide (Book.BookID b = book_id) then d else 0).
Proof.
  intros Hb. rewrite loc_update_lookup, Hb. simpl.
  eexists; split; [done|]. case_decide; simpl; repeat split; lia.
Qed.

(** On tables whose ids are typed text: an issue for a BookID that no row
    holds reports [NotFound]; for a book whose AvailableCopies is 0 or less
    it reports [NoAvailability]; both return the three tables as they were.
    Otherwise it appends one loan row (user, name, book, IssueDate = now, no
    ReturnDate), takes one from the book's AvailableCopies and appends one
    "Issued" log entry; it succeeds exactly when the book exists with
    AvailableCopies > 0. *)
Lemma issue_book_spec (s : tables) (user_id name book_id : string)
    (now : timestamp) :
  let r := issue_book s user_id name book_id now in
  (book_id ∉ Book.BookID <$> books s → r = (NotFound, s))
  ∧ (∀ book_row,
       head (select (λ b, Book.BookID b = book_id) (books s)) = Some book_row →
       (Book.AvailableCopies book_row ≤ 0 → r = (NoAvailability, s))
       ∧ (0 < Book.AvailableCopies book_row →
          r.1 = BookIssued
          ∧ users r.2 = users s ++ [Loan.mk user_id name book_id now None]
          ∧ logs r.2 = logs s ++ [Log.mk user_id book_id "Issued" now]
          ∧ length (books r.2) = length (books s)
          ∧ ∀ i b, books s !! i = Some b →
              ∃ b', books r.2 !! i = Some b'
                    ∧ Book.BookID b' = Book.BookID b
                    ∧ Book.Title b' = Book.Title b
                    ∧ Book.Author b' = Book.Author b
                    ∧ Book.TotalCopies b' = Book.TotalCopies b
                    ∧ Book.AvailableCopies b' =
                        Book.AvailableCopies b
                        - (if decide (Book.BookID b = book_id) then 1 else 0)))
  ∧ (r.1 = BookIssued ↔
     ∃ book_row,
       head (select (λ b, Book.BookID b = book_id) (books s)) = Some book_row
       ∧ 0 < Book.AvailableCopies book_row)
  ∧ (r.1 ≠ BookIssued → r.2 = s).
Proof.
  cbv zeta. split; [|split; [|split]].
  - intros Hnew%isin_false. unfold issue_book. by rewrite Hnew.
  - intros book_row Hrow. rewrite (issue_book_unfold _ _ _ _ _ _ Hrow). split.
    + intros Hle. by rewrite bool_decide_eq_true_2.
    + intros Hpos. rewrite bool_decide_eq_false_2 by lia. simpl.
      repeat split; [apply loc_update_length|].
      intros i b Hb.
      destruct (adjust_books_lookup _ book_id (-1) _ _ Hb) as (b' & ? & ? & ? & ? & ? & Hav).
      exists b'. repeat split; try done. rewrite Hav. case_decide; lia.
  - destruct (decide (book_id ∈ Book.BookID <$> books s)) as [Hin|Hnew].
    + destruct (select_book_nonempty _ _ Hin) as [book_row Hrow].
      rewrite (issue_book_unfold _ _ _ _ _ _ Hrow). case_bool_decide; simpl.
      * split; [done|]. intros (row & Hrow' & Hpos). simplify_eq. lia.
      * split; [|done]. intros _. exists book_row. split; [done|lia].
    + unfold issue_book. apply isin_false in Hnew as Hnew'. rewrite Hnew'. simpl.
      split; [done|]. intros (row & Hrow & _).
      apply select_head_elem in Hrow as [Hrow <-].
      destruct Hnew. by apply list_elem_of_fmap_2.
  - unfold issue_book. destruct (isin _ _); simpl; [|done].
    destruct (head _); [|done]. by case_bool_decide.
Qed.

(** X22.  In a session started from the empty tables, with every copy
    count on file within the 64-bit range: an issue for a BookID that no row
    holds reports [NotFound]; for a book whose AvailableCopies is 0 or less
    it reports [NoAvailability]; both return the three tables as they were.
    Otherwise it appends one loan row (user, name, book, IssueDate = now, no
    ReturnDate), takes exactly one from the book's AvailableCopies and
    appends one "Issued" log entry; it succeeds exactly when the book is on
    file with AvailableCopies > 0. *)
Theorem issue_book_in_session (inputs : list choice) (user_id name book_id : string)
    (now : timestamp) :
  let s := tables_of (main_loop inputs empty_tables) in
  counts_in_int64 s →
  let r := issue_book s user_id name book_id now in
  (book_id ∉ Book.BookID <$> books s → r = (NotFound, s))
  ∧ (∀ book_row,
       head (select (λ b, Book.BookID b = book_id) (books s)) = Some book_row →
       (Book.AvailableCopies book_row ≤ 0 → r = (NoAvailability, s))
       ∧ (0 < Book.AvailableCopies book_row →
          r.1 = BookIssued
          ∧ users r.2 = users s ++ [Loan.mk user_id name book_id now None]
          ∧ logs r.2 = logs s ++ [Log.mk user_id book_id "Issued" now]
          ∧ length (books r.2) = length (books s)
          ∧ ∀ i b, books s !! i = Some b →
              ∃ b', books r.2 !! i = Some b'
                    ∧ Book.BookID b' = Book.BookID b
                    ∧ Book.Title b' = Book.Title b
                    ∧ Book.Author b' = Book.Author b
                    ∧ Book.TotalCopies b' = Book.TotalCopies b
                    ∧ Book.AvailableCopies b' =
                        Book.AvailableCopies b
                        - (if decide (Book.BookID b = book_id) then 1 else 0)))
  ∧ (r.1 = BookIssued ↔
     ∃ book_row,
       head (select (λ b, Book.BookID b = book_id) (books s)) = Some book_row
       ∧ 0 < Book.AvailableCopies book_row)
  ∧ (r.1 ≠ BookIssued → r.2 = s).
Proof. intros s _. apply issue_book_spec. Qed.

Lemma issue_book_in_session_witness :
  (issue_book
     (Tables [Book.mk "B1" "Emma" "Austen" 1 0]
        [Loan.mk "U1" "Alice" "B1" 1000 None] [Log.mk "U1" "B1" "Issued" 1000])
     "U3" "Carl" "B1" 7)
  = (NoAvailability,
     Tables [Book.mk "B1" "Emma" "Austen" 1 0]
       [Loan.mk "U1" "Alice" "B1" 1000 None] [Log.mk "U1" "B1" "Issued" 1000]).
Proof.
  refine (proj1 (proj1 (proj2 (issue_book_in_session
            [MenuAdd "B1" "Emma" "Austen" (Some 1); MenuIssue "U1" "Alice" "B1" 1000]
            "U3" "Carl" "B1" 7 _))
          (Book.mk "B1" "Emma" "Austen" 1 0) _) _).
  - apply Forall_singleton. by vm_compute.
  - reflexivity.
  - simpl. lia.
Defined.

(** ** return_book *)

Lemma return_book_unfold s user_id book_id today loan :
  head (select (active user_id book_id) (users s)) = Some loan →
  return_book s user_id book_id today =
    (BookReturned (fine_of (return_days today (Loan.IssueDate loan))),
     Tables
       (loc_update (λ b, Book.BookID b = book_id) (Book.adjust 1) (books s))
       (loc_update (active user_id book_id) (Loan.close today) (users s))
       (logs s ++ [Log.mk user_id book_id "Returned" today])).
Proof.
  intros Hloan. unfold return_book. cbv zeta.
  destruct (select_head_elem _ _ _ Hloan) as [Hin Hact].
  assert (any (active user_id book_id) (users s) = true) as ->.
  { apply any_true. eauto. }
  apply head_Some in Hloan as [rest ->]. done.
Qed.

Lemma return_book_no_match s user_id book_id today :
  select (active user_id book_id) (users s) = [] →
  return_book s user_id book_id today = (NoActiveLoan, s).
Proof.
  intros Hnone%any_false. unfold return_book. cbv zeta. by rewrite Hnone.
Qed.

(** [Timedelta.days] is the floor of the difference in days. *)
Lemma return_days_floor today issue_date :
  return_days today issue_date * DAY ≤ today - issue_date
    < (return_days today issue_date + 1) * DAY.
Proof.
  unfold return_days.
  pose proof (Z.mod_pos_bound (today - issue_date) DAY eq_refl).
  pose proof (Z.div_mod (today - issue_date) DAY).
  unfold DAY in *. lia.
Qed.








(** C4.  Two outstanding loans of one user for one book: the return closes
    both rows, returns one copy and takes the fine from the first. *)
Theorem return_book_closes_every_match :
  return_book
    (Tables [Book.mk "B1" "Emma" "Austen" 2 0]
       [Loan.mk "U1" "Alice" "B1" 1000 None;
        Loan.mk "U1" "Alice" "B1" (1000 + 10 * DAY) None] [])
    "U1" "B1" (1000 + 20 * DAY)
  = (BookReturned 30,
     Tables [Book.mk "B1" "Emma" "Austen" 2 1]
       [Loan.mk "U1" "Alice" "B1" 1000 (Some (1000 + 20 * DAY));
        Loan.mk "U1" "Alice" "B1" (1000 + 10 * DAY) (Some (1000 + 20 * DAY))]
       [Log.mk "U1" "B1" "Returned" (1000 + 20 * DAY)]).
Proof. by vm_compute. Qed.

(** Every row the mask selects is closed, not the first alone. *)
Lemma return_book_closes_matches s user_id book_id now i l :
  users s !! i = Some l →
  active user_id book_id l →
  users (return_book s user_id book_id now).2 !! i = Some (Loan.close now l).
Proof.
  intros Hi Hact.
  destruct (select (active user_id book_id) (users s)) as [|loan rest] eqn:Hsel.
  { destruct (filter_nil_not_elem_of _ _ l Hsel Hact).
    by eapply list_elem_of_lookup_2. }
  rewrite (return_book_unfold _ _ _ _ loan) by (by rewrite Hsel).
  simpl. rewrite loc_update_lookup, Hi. simpl. by rewrite decide_True.
Qed.

(** ** The Books table under issue and return *)

Lemma same_catalogue_refl book_id books : same_catalogue book_id books books.
Proof. split; [done|]. intros i. by destruct (books !! i). Qed.

Lemma same_catalogue_adjust book_id d books :
  same_catalogue book_id books
    (loc_update (λ b, Book.BookID b = book_id) (Book.adjust d) books).
Proof.
  split; [apply loc_update_length|].
  intros i. rewrite loc_update_lookup. destruct (books !! i) as [b|]; [|done].
  simpl. by case_decide.
Qed.

(** C10.  Issue and return leave the rows of the Books table in place with
    their BookID, Title, Author and TotalCopies, and change AvailableCopies
    of no row of another book. *)
Theorem issue_return_same_catalogue (s : tables) (user_id name book_id : string)
    (now : timestamp) :
  same_catalogue book_id (books s)
    (books (issue_book s user_id name book_id now).2)
  ∧ same_catalogue book_id (books s)
      (books (return_book s user_id book_id now).2).
Proof.
  split.
  - unfold issue_book. destruct (negb _); [apply same_catalogue_refl|].
    destruct (head _); [|apply same_catalogue_refl].
    case_bool_decide; [apply same_catalogue_refl|apply same_catalogue_adjust].
  - unfold return_book. cbv zeta. destruct (negb _); [apply same_catalogue_refl|].
    destruct (head _); [apply same_catalogue_adjust|apply same_catalogue_refl].
Qed.

(** ** Errors and the menu loop *)

Lemma add_book_error books book_id title author copies :
  is_user_error (add_book books book_id title author copies).1 = true →
  (add_book books book_id title author copies).2 = books.
Proof.
  unfold add_book. destruct (isin _ _); [done|].
  destruct copies as [n|]; [|done]. by case_bool_decide.
Qed.

Lemma issue_book_error s user_id name book_id now :
  is_user_error (issue_book s user_id name book_id now).1 = true →
  (issue_book s user_id name book_id now).2 = s.
Proof.
  unfold issue_book. destruct (negb _); [done|].
  destruct (head _); [|done]. by case_bool_decide.
Qed.

Lemma return_book_error s user_id book_id now :
  is_user_error (return_book s user_id book_id now).1 = true →
  (return_book s user_id book_id now).2 = s.
Proof.
  unfold return_book. cbv zeta. destruct (negb _); [done|].
  by destruct (head _).
Qed.

(** Neither [.iloc[0]] can fail: each follows a membership test on the same
    selection. *)
Lemma operations_never_raise c s : (menu_step c s).1 ≠ Some IndexError.
Proof.
  by_choice c.
  - unfold add_book. destruct (isin _ _); [done|].
    destruct copies; [|done]. by case_bool_decide.
  - unfold issue_book.
    destruct (isin _ _) eqn:Hin; simpl; [|done].
    apply isin_true, select_book_nonempty in Hin as [row ->].
    by case_bool_decide.
  - unfold return_book. cbv zeta.
    destruct (any _ _) eqn:Hany; simpl; [|done].
    destruct (select _ _) as [|l rest] eqn:Hsel; [|done].
    apply any_false in Hsel. congruence.
Qed.

(** C6.  A pass of the menu loop that ends in one of the user errors
    (DuplicateID, InvalidInput, NotFound, NoAvailability, NoActiveLoan)
    leaves control at the prompt with the three tables it started from, and
    the loop goes on with the remaining input as if the pass had not been
    made. *)
Theorem user_error_keeps_tables (c : choice) (s : tables) (o : outcome) :
  (menu_step c s).1 = Some o →
  is_user_error o = true →
  (menu_step c s).2 = AwaitingChoice s
  ∧ ∀ inputs, main_loop (c :: inputs) s = main_loop inputs s.
Proof.
  intros Ho Herr.
  assert ((menu_step c s).2 = AwaitingChoice s) as Hsame.
  { destruct s as [bs us ls].
    by_choice c.
    - pose proof (add_book_error bs book_id title author copies) as Hkeep.
      destruct (add_book _ _ _ _ _) as [o' bs']. simplify_eq/=.
      by rewrite Hkeep.
    - pose proof (issue_book_error (Tables bs us ls) user_id name book_id now)
        as Hkeep.
      destruct (issue_book _ _ _ _ _) as [o' s']. simplify_eq/=.
      by rewrite Hkeep.
    - pose proof (return_book_error (Tables bs us ls) user_id book_id now)
        as Hkeep.
      destruct (return_book _ _ _ _) as [o' s']. simplify_eq/=.
      by rewrite Hkeep. }
  split; [done|]. intros inputs. simpl. by rewrite Hsame.
Qed.

Lemma user_error_keeps_tables_witness :
  (menu_step (MenuReturn "U1" "B1" 5) (Tables [Book.mk "B1" "Emma" "Austen" 2 2] [] [])).2
  = AwaitingChoice (Tables [Book.mk "B1" "Emma" "Austen" 2 2] [] []).
Proof.
  exact (proj1 (user_error_keeps_tables (MenuReturn "U1" "B1" 5)
                  (Tables [Book.mk "B1" "Emma" "Austen" 2 2] [] [])
                  NoActiveLoan eq_refl eq_refl)).
Defined.

(** C9.  Whether an issue succeeds depends on the Books table alone, never
    on the loans already made; and from the empty tables the menu reaches a
    state with two outstanding loan rows of user U1 for book B1. *)
Theorem issue_book_twice_to_one_user :
  (∀ s users' logs' user_id name book_id now,
     (issue_book (Tables (books s) users' logs') user_id name book_id now).1
     = (issue_book s user_id name book_id now).1)
  ∧ ∃ inputs s i j l1 l2,
      main_loop inputs empty_tables = AwaitingChoice s
      ∧ i ≠ j
      ∧ users s !! i = Some l1 ∧ users s !! j = Some l2
      ∧ active "U1" "B1" l1 ∧ active "U1" "B1" l2.
Proof.
  split.
  - intros s users' logs' user_id name book_id now. unfold issue_book. simpl.
    destruct (negb _); [done|]. destruct (head _); [|done].
    by case_bool_decide.
  - exists [MenuAdd "B1" "Emma" "Austen" (Some 2);
            MenuIssue "U1" "Alice" "B1" 1000;
            MenuIssue "U1" "Alice" "B1" 2000].
    eexists. exists 0%nat, 1%nat. eexists. eexists.
    split; [by vm_compute|]. by vm_compute.
Qed.

(** ** The availability invariant *)

Lemma select_nil {A} (P : A → Prop) `{!∀ r, Decision (P r)} (df : list A) :
  (∀ r, r ∈ df → ¬ P r) → select P df = [].
Proof.
  intros Hno. destruct (select P df) as [|r rest] eqn:Hsel; [done|].
  assert (r ∈ select P df) as Hin by (rewrite Hsel; left).
  apply list_elem_of_filter in Hin as [? ?]. by destruct (Hno r).
Qed.

Lemma outstanding_snoc book_id users l :
  outstanding book_id (users ++ [l])
  = outstanding book_id users
    + (if decide (Loan.BookID l = book_id ∧ Loan.ReturnDate l = None) then 1 else 0).
Proof.
  unfold outstanding, select. rewrite filter_app, length_app, filter_singleton.
  - case_decide; simpl; lia.
  - exact [].
Qed.

(** Closing the rows of a mask takes them, and only them, out of the
    outstanding loans of their book. *)
Lemma outstanding_close user_id book_id now bid users :
  outstanding bid (loc_update (active user_id book_id) (Loan.close now) users)
  = outstanding bid users
    - (if decide (bid = book_id)
       then Z.of_nat (length (select (active user_id book_id) users)) else 0).
Proof.
  unfold outstanding, select, loc_update.
  induction users as [|l users IH]; [by case_decide|].
  rewrite fmap_cons, !filter_cons.
  destruct (decide (active user_id book_id l)) as [Hact|Hno].
  - destruct Hact as (Hu & Hb & Hr).
    rewrite decide_False by (simpl; intros [_ ?]; done).
    destruct (decide (bid = book_id)) as [->|Hne].
    + rewrite decide_True by done. simpl length. lia.
    + rewrite decide_False by (intros [? _]; congruence). lia.
  - destruct (decide (Loan.BookID l = bid ∧ Loan.ReturnDate l = None)) as [Hout|Hin].
    + simpl length. case_decide; lia.
    + lia.
Qed.

Lemma book_ids_adjust book_id d (books : list Book.t) :
  Book.BookID <$> loc_update (λ b, Book.BookID b = book_id) (Book.adjust d) books
  = Book.BookID <$> books.
Proof.
  unfold loc_update. rewrite <-list_fmap_compose. apply list_fmap_ext.
  intros i b _. simpl. by case_decide.
Qed.

(** A unique BookID column determines the row of a BookID. *)
Lemma unique_row (books : list Book.t) b1 b2 :
  NoDup (Book.BookID <$> books) →
  b1 ∈ books → b2 ∈ books → Book.BookID b1 = Book.BookID b2 → b1 = b2.
Proof.
  induction books as [|b books IH]; [by intros _ ?%elem_of_nil|].
  rewrite fmap_cons, NoDup_cons, !elem_of_cons.
  intros [Hfresh Hnd] [->|H1] [->|H2] Hid; try done.
  - destruct Hfresh. rewrite Hid. by apply list_elem_of_fmap_2.
  - destruct Hfresh. rewrite <-Hid. by apply list_elem_of_fmap_2.
  - by apply IH.
Qed.

Lemma well_formed_add_book bs us ls book_id title author copies :
  well_formed (Tables bs us ls) →
  well_formed (Tables (add_book bs book_id title author copies).2 us ls).
Proof.
  intros Hwf. unfold add_book.
  destruct (isin _ _) eqn:Hnew; [done|].
  destruct copies as [n|]; [|done]. case_bool_decide as Hn; [done|].
  destruct Hwf as (Hnd & Href & Hacc). simpl in *.
  apply isin_false in Hnew. unfold concat_row. repeat split; simpl.
  - rewrite fmap_app. apply NoDup_app. split; [done|]. split.
    + intros x Hx ->%list_elem_of_singleton. done.
    + apply NoDup_singleton.
  - intros l Hl Hout. rewrite fmap_app, elem_of_app. left. by apply Href.
  - unfold accounted in *. simpl in *. apply Forall_app. split; [done|].
    apply Forall_singleton. simpl.
    assert (outstanding book_id us = 0) as ->; [|lia].
    unfold outstanding. rewrite select_nil; [done|].
    intros l Hl [Hid Hout]. apply Hnew. rewrite <-Hid. by apply Href.
Qed.

Lemma well_formed_issue_book s user_id name book_id now :
  well_formed s →
  well_formed (issue_book s user_id name book_id now).2.
Proof.
  intros Hwf. unfold issue_book.
  destruct (isin _ _) eqn:Hin; simpl; [|done].
  destruct (head _) as [row|] eqn:Hrow; [|done].
  case_bool_decide as Hpos; [done|].
  destruct Hwf as (Hnd & Href & Hacc). apply isin_true in Hin.
  apply select_head_elem in Hrow as [Hrow_in Hrow_id].
  unfold concat_row. repeat split; simpl.
  - by rewrite book_ids_adjust.
  - intros l Hl Hout. rewrite book_ids_adjust.
    apply elem_of_app in Hl as [Hl| ->%list_elem_of_singleton]; [by apply Href|done].
  - unfold accounted in *. simpl.
    apply Forall_loc_update, Forall_forall. intros b Hb.
    rewrite Forall_forall in Hacc. destruct (Hacc b Hb) as [Hav Hle].
    simpl. destruct (decide (Book.BookID b = book_id)) as [Hid|Hid]; simpl.
    + assert (b = row) as -> by (apply (unique_row (books s)); congruence).
      rewrite outstanding_snoc. simpl. rewrite decide_True by done. lia.
    + rewrite outstanding_snoc. simpl.
      rewrite decide_False by (intros [? _]; congruence). lia.
Qed.

Lemma well_formed_return_book s user_id book_id now :
  well_formed s →
  (length (select (active user_id book_id) (users s)) ≤ 1)%nat →
  well_formed (return_book s user_id book_id now).2.
Proof.
  intros Hwf Hone.
  destruct (select (active user_id book_id) (users s)) as [|loan rest] eqn:Hsel.
  { by rewrite (return_book_no_match _ _ _ _ Hsel). }
  assert (rest = []) as -> by (destruct rest; simpl in *; [done|lia]).
  rewrite (return_book_unfold _ _ _ _ loan) by (by rewrite Hsel). simpl.
  destruct Hwf as (Hnd & Href & Hacc). repeat split; simpl.
  - by rewrite book_ids_adjust.
  - intros l' Hl' Hout. rewrite book_ids_adjust.
    apply list_elem_of_fmap in Hl' as (l & -> & Hl).
    destruct (decide (active user_id book_id l)); [done|by apply Href].
  - unfold accounted in *. simpl.
    apply Forall_loc_update, Forall_forall. intros b Hb.
    rewrite Forall_forall in Hacc. destruct (Hacc b Hb) as [Hav Hle].
    simpl. rewrite !outstanding_close, Hsel. simpl length.
    destruct (decide (Book.BookID b = book_id)) as [Hid|Hid]; simpl.
    + rewrite decide_True by done. lia.
    + rewrite decide_False by done. lia.
Qed.

(** From a state in which BookIDs are unique, every outstanding loan is of
    a book on file and, for every book,
    AvailableCopies = TotalCopies - outstanding loans with the outstanding
    loans at most TotalCopies, the same holds after add-book, after issue,
    and after a return that finds at most one matching loan row. *)
Lemma accounting_preserved (c : choice) (s : tables) :
  well_formed s →
  at_most_one_match c s →
  well_formed (tables_of (menu_step c s).2).
Proof.
  intros Hwf Hone.
  by_choice c.
  - destruct s as [bs us ls].
    pose proof (well_formed_add_book bs us ls book_id title author copies Hwf).
    by destruct (add_book _ _ _ _ _).
  - pose proof (well_formed_issue_book s user_id name book_id now Hwf).
    by destruct (issue_book _ _ _ _ _).
  - pose proof (well_formed_return_book s user_id book_id now Hwf Hone).
    by destruct (return_book _ _ _ _).
Qed.

Lemma single_returns_well_formed (inputs : list choice) (s : tables) :
  well_formed s →
  single_returns inputs s →
  well_formed (tables_of (main_loop inputs s)).
Proof.
  revert s. induction inputs as [|c inputs IH]; intros s Hwf Hone; [done|].
  destruct Hone as [Hc Hrest]. simpl.
  pose proof (accounting_preserved c s Hwf Hc) as Hstep.
  destruct (menu_step c s).2 as [s'|saved]; simpl in *; [by apply IH|done].
Qed.

(** X24.  In a session started from the empty tables in which every return
    finds at most one matching loan row, and with every copy count on file
    within the 64-bit range, every book on file has
    AvailableCopies = TotalCopies - outstanding loans, and its outstanding
    loans do not exceed its TotalCopies. *)
Theorem accounting_in_session (inputs : list choice) (b : Book.t) :
  let s := tables_of (main_loop inputs empty_tables) in
  single_returns inputs empty_tables →
  counts_in_int64 s →
  b ∈ books s →
  Book.AvailableCopies b
  = Book.TotalCopies b - outstanding (Book.BookID b) (users s)
  ∧ outstanding (Book.BookID b) (users s) ≤ Book.TotalCopies b.
Proof.
  intros s Hone _ Hb.
  assert (well_formed empty_tables) as Hstart.
  { repeat split; [apply NoDup_nil_2|by intros l ?%elem_of_nil|apply Forall_nil_2]. }
  destruct (single_returns_well_formed inputs _ Hstart Hone) as (_ & _ & Hacc).
  unfold accounted in Hacc. rewrite Forall_forall in Hacc. by apply Hacc.
Qed.

Lemma accounting_in_session_witness :
  1 = 2 - outstanding "B1"
            [Loan.mk "U1" "Alice" "B1" 1000 (Some 3000);
             Loan.mk "U2" "Bob" "B1" 2000 None]
  ∧ outstanding "B1"
      [Loan.mk "U1" "Alice" "B1" 1000 (Some 3000);
       Loan.mk "U2" "Bob" "B1" 2000 None] ≤ 2.
Proof.
  apply (accounting_in_session
           [MenuAdd "B1" "Emma" "Austen" (Some 2);
            MenuIssue "U1" "Alice" "B1" 1000;
            MenuIssue "U2" "Bob" "B1" 2000;
            MenuReturn "U1" "B1" 3000]
           (Book.mk "B1" "Emma" "Austen" 2 1)).
  - simpl. repeat split; lia.
  - apply Forall_singleton. by vm_compute.
  - vm_compute. left.
Defined.

(** C3.  From the empty tables the menu reaches, by adding B1 with two
    copies and issuing it to U1 twice, a state in which the invariant
    holds: AvailableCopies 0 = TotalCopies 2 - 2 outstanding loans.  The
    return of B1 by U1 closes both loans and gives one copy back: with
    AvailableCopies 1, TotalCopies 2 and no outstanding loan the invariant
    no longer holds. *)
Theorem accounting_broken_by_return :
  let s := tables_of
             (main_loop [MenuAdd "B1" "Emma" "Austen" (Some 2);
                         MenuIssue "U1" "Alice" "B1" 1000;
                         MenuIssue "U1" "Alice" "B1" 2000] empty_tables) in
  let s' := tables_of (menu_step (MenuReturn "U1" "B1" 3000) s).2 in
  accounted s
  ∧ books s' = [Book.mk "B1" "Emma" "Austen" 2 1]
  ∧ outstanding "B1" (users s') = 0
  ∧ ¬ accounted s'.
Proof. cbv zeta. repeat split; by compute_done. Qed.

(** ** visualize_top_books *)













(** Under a unique BookID column a key selects its row and no other. *)
Lemma select_unique_row (books : list Book.t) b :
  NoDup (Book.BookID <$> books) → b ∈ books →
  select (λ b', Book.BookID b' = Book.BookID b) books = [b].
Proof.
  unfold select. induction books as [|b0 books IH]; [by intros _ ?%elem_of_nil|].
  rewrite fmap_cons, NoDup_cons, elem_of_cons, filter_cons.
  intros [Hfresh Hnd] [->|Hb].
  - rewrite decide_True by done. f_equal. apply (select_nil _).
    intros b' Hb' Hid. apply Hfresh. rewrite <-Hid. by apply list_elem_of_fmap_2.
  - rewrite decide_False; [by apply IH|].
    intros Hid. apply Hfresh. rewrite Hid. by apply list_elem_of_fmap_2.
Qed.




(** C8.  The tables of a session that finds BookID 7 filed twice, with one
    loan of it (the ids of both tables are the loaded ones, which compare
    among themselves as their fields do): the chart has the bar of 7, and
    its label is not a Title but the sub-series of both titles that
    [book_titles.get] returns for a repeated key; [plt.bar] raises TypeError
    on it. *)
Theorem chart_of_repeated_book_id :
  let books := [Book.mk "7" "Dune" "Herbert" 1 1; Book.mk "7" "Emma" "Austen" 1 0] in
  let users := [Loan.mk "U1" "Alice" "7" 1000 None] in
  top_books users = [("7", 1%nat)]
  ∧ get_title books "7" = Series ["Dune"; "Emma"]
  ∧ visualize_top_books users books = Some [(Series ["Dune"; "Emma"], 1%nat)]
  ∧ ∀ b, b ∈ books → get_title books (Book.BookID b) ≠ Scalar (Book.Title b).
Proof.
  cbv zeta. repeat split; try by vm_compute.
  intros b Hb. repeat (apply elem_of_cons in Hb as [->|Hb]); [done..|].
  by apply elem_of_nil in Hb.
Qed.

(** ** load_data after save_data *)

(** C7.  A book filed under the BookID 007 is written as the field 007 and
    read back as the number 7, and an empty Author is read back as a
    missing value: the loaded tables are not the saved ones, and saving
    them again writes a different books.csv. *)
Theorem save_load_changes_cells (format_timestamp : timestamp → string)
    (parse_timestamp : string → option timestamp) :
  let X := Tables [Book.mk "007" "Dune" "" 1 1] [] [] in
  let files := save_data format_timestamp (frames X) in
  let Y := load_data parse_timestamp files in
  rows (frames X).1.1 = [[Str "007"; Str "Dune"; Str ""; Num 1; Num 1]]
  ∧ records files.1.1 = [["007"; "Dune"; ""; "1"; "1"]]
  ∧ rows Y.1.1 = [[Num 7; Str "Dune"; Missing; Num 1; Num 1]]
  ∧ Y ≠ frames X
  ∧ records (save_data format_timestamp Y).1.1 = [["7"; "Dune"; ""; "1"; "1"]]
  ∧ save_data format_timestamp Y ≠ files.
Proof. cbv zeta. repeat split; by vm_compute. Qed.

(** ** The id tests after a restart *)

(** C5.  A session files a book under the BookID 7 and exits; in that
    session a second book under 7 is refused as [DuplicateID].  The next
    session loads the BookID column as the number 7, the test
    [book_id in books["BookID"].values] of add_book is false for the typed
    7, and add_book goes on to read title, author and copies and to file a
    second row. *)
Theorem add_book_after_reload (format_timestamp : timestamp → string)
    (parse_timestamp : string → option timestamp) :
  let X := tables_of (main_loop [MenuAdd "7" "Dune" "Herbert" (Some 2); MenuExit]
                        empty_tables) in
  let loaded := load_data parse_timestamp (save_data format_timestamp (frames X)) in
  books X = [Book.mk "7" "Dune" "Herbert" 2 2]
  ∧ add_book (books X) "7" "Emma" "Austen" (Some 1) = (DuplicateID, books X)
  ∧ rows loaded.1.1 = [[Num 7; Str "Dune"; Str "Herbert"; Num 2; Num 2]]
  ∧ column_values "BookID" loaded.1.1 = Some [Num 7]
  ∧ isin_cells "7" <$> column_values "BookID" loaded.1.1 = Some false.
Proof. cbv zeta. repeat split; by vm_compute. Qed.

(** C1.  A session files a book under the BookID 7 with two copies and
    exits; in that session an issue of 7 succeeds.  The next session loads
    the BookID column as the number 7, the test
    [book_id not in books["BookID"].values] of issue_book is true for the
    typed 7, and the issue of a book that is on file with two available
    copies ends with "Book not found." *)
Theorem issue_book_after_reload (format_timestamp : timestamp → string)
    (parse_timestamp : string → option timestamp) :
  let X := tables_of (main_loop [MenuAdd "7" "Dune" "Herbert" (Some 2); MenuExit]
                        empty_tables) in
  let loaded := load_data parse_timestamp (save_data format_timestamp (frames X)) in
  (issue_book X "U1" "Alice" "7" 1000).1 = BookIssued
  ∧ records (save_data format_timestamp (frames X)).1.1
    = [["7"; "Dune"; "Herbert"; "2"; "2"]]
  ∧ column_values "BookID" loaded.1.1 = Some [Num 7]
  ∧ negb <$> (isin_cells "7" <$> column_values "BookID" loaded.1.1) = Some true.
Proof. cbv zeta. repeat split; by vm_compute. Qed.

(** ** The scenarios of the specification *)

Example scenario_two_copies :
  main_loop [MenuAdd "B1" "Title" "Author" (Some 2);
             MenuIssue "U1" "Alice" "B1" 1000;
             MenuIssue "U2" "Bob" "B1" 2000;
             MenuIssue "U3" "Carl" "B1" 3000] empty_tables
  = AwaitingChoice
      (Tables [Book.mk "B1" "Title" "Author" 2 0]
         [Loan.mk "U1" "Alice" "B1" 1000 None; Loan.mk "U2" "Bob" "B1" 2000 None]
         [Log.mk "U1" "B1" "Issued" 1000; Log.mk "U2" "B1" "Issued" 2000])
  ∧ (issue_book
       (Tables [Book.mk "B1" "Title" "Author" 2 0]
          [Loan.mk "U1" "Alice" "B1" 1000 None; Loan.mk "U2" "Bob" "B1" 2000 None]
          [Log.mk "U1" "B1" "Issued" 1000; Log.mk "U2" "B1" "Issued" 2000])
       "U3" "Carl" "B1" 3000).1 = NoAvailability.
Proof. by vm_compute. Qed.

Example scenario_fines :
  fine_of (return_days (1000 + 20 * DAY) 1000) = 30
  ∧ fine_of (return_days (1000 + 5 * DAY) 1000) = 0
  ∧ fine_of (return_days (1000 + 15 * DAY - 1) 1000) = 0
  ∧ fine_of (return_days (1000 + 15 * DAY) 1000) = 5.
Proof. by vm_compute. Qed.

Example scenario_no_prior_issue :
  return_book (Tables [Book.mk "B1" "Title" "Author" 2 2] [] []) "U1" "B1" 1000
  = (NoActiveLoan, Tables [Book.mk "B1" "Title" "Author" 2 2] [] []).
Proof. by vm_compute. Qed.

Example message_late_return :
  message (BookReturned 30) = ["Book returned."; "Late return. Fine: ₹30"].
Proof. by vm_compute. Qed.

(** * Whole sessions *)

(** ** Carrying a property through the menu loop *)

Lemma main_loop_invariant (I : tables → Prop) :
  (∀ c s, I s → I (tables_of (menu_step c s).2)) →
  ∀ inputs s, I s → I (tables_of (main_loop inputs s)).
Proof.
  intros Hstep inputs. induction inputs as [|c inputs IH]; intros s Hs; [done|].
  simpl. specialize (Hstep c s Hs).
  destruct (menu_step c s).2; simpl in *; [by apply IH|done].
Qed.

Lemma main_loop_relation (R : tables → tables → Prop)
    `{!Reflexive R, !Transitive R} :
  (∀ c s, R s (tables_of (menu_step c s).2)) →
  ∀ inputs s, R s (tables_of (main_loop inputs s)).
Proof.
  intros Hstep inputs. induction inputs as [|c inputs IH]; intros s; [done|].
  simpl. specialize (Hstep c s).
  destruct (menu_step c s).2 as [s'|s']; simpl in *; [|done].
  by trans s'.
Qed.

(** The tables after a pass, choice by choice. *)
Lemma menu_step_tables c s :
  tables_of (menu_step c s).2 =
    match c with
    | MenuAdd book_id title author copies =>
        Tables (add_book (books s) book_id title author copies).2 (users s) (logs s)
    | MenuIssue user_id name book_id now =>
        (issue_book s user_id name book_id now).2
    | MenuReturn user_id book_id now => (return_book s user_id book_id now).2
    | _ => s
    end.
Proof.
  destruct c as [book_id title author copies|user_id name book_id now
                |user_id book_id now| | | | |]; simpl; try done.
  - by destruct (add_book _ _ _ _ _).
  - by destruct (issue_book _ _ _ _ _).
  - by destruct (return_book _ _ _ _).
Qed.

(** What each operation can do to the tables. *)
Lemma add_book_cases books book_id title author copies :
  (add_book books book_id title author copies).2 = books
  ∨ ∃ n, copies = Some n ∧ 1 ≤ n ∧ (book_id ∉ Book.BookID <$> books)
         ∧ (add_book books book_id title author copies).2
           = books ++ [Book.mk book_id title author n n].
Proof.
  unfold add_book. destruct (isin _ _) eqn:Hnew; [by left|].
  destruct copies as [n|]; [|by left]. case_bool_decide; [by left|].
  right. exists n. apply isin_false in Hnew. repeat split; [lia|done].
Qed.

Lemma issue_book_cases s user_id name book_id now :
  (issue_book s user_id name book_id now).2 = s
  ∨ ∃ book_row,
      head (select (λ b, Book.BookID b = book_id) (books s)) = Some book_row
      ∧ 0 < Book.AvailableCopies book_row
      ∧ issue_book s user_id name book_id now
        = (BookIssued,
           Tables
             (loc_update (λ b, Book.BookID b = book_id) (Book.adjust (-1)) (books s))
             (users s ++ [Loan.mk user_id name book_id now None])
             (logs s ++ [Log.mk user_id book_id "Issued" now])).
Proof.
  unfold issue_book. destruct (negb _); [by left|].
  destruct (head _) as [book_row|]; [|by left].
  case_bool_decide; [by left|]. right. exists book_row. repeat split. lia.
Qed.

Lemma return_book_cases s user_id book_id now :
  (return_book s user_id book_id now).2 = s
  ∨ ∃ loan rest,
      select (active user_id book_id) (users s) = loan :: rest
      ∧ return_book s user_id book_id now
        = (BookReturned (fine_of (return_days now (Loan.IssueDate loan))),
           Tables
             (loc_update (λ b, Book.BookID b = book_id) (Book.adjust 1) (books s))
             (loc_update (active user_id book_id) (Loan.close now) (users s))
             (logs s ++ [Log.mk user_id book_id "Returned" now])).
Proof.
  destruct (select (active user_id book_id) (users s)) as [|loan rest] eqn:Hsel.
  - left. by rewrite (return_book_no_match _ _ _ _ Hsel).
  - right. exists loan, rest. split; [done|].
    apply return_book_unfold. by rewrite Hsel.
Qed.

(** ** The log *)

(** X1.  The log only grows, at its end, and by at most one entry for each
    choice typed: whatever is typed at the menu, the log the session started
    with is a prefix of the log it has afterwards. *)
Theorem logs_append_only (inputs : list choice) (s : tables) :
  (logs s) `prefix_of` (logs (tables_of (main_loop inputs s)))
  ∧ (length (logs (tables_of (main_loop inputs s)))
     ≤ length (logs s) + length inputs)%nat.
Proof.
  revert s. induction inputs as [|c inputs IH]; intros s; simpl; [split; [done|lia]|].
  assert ((logs s) `prefix_of` (logs (tables_of (menu_step c s).2))
          ∧ (length (logs (tables_of (menu_step c s).2)) ≤ S (length (logs s)))%nat)
    as [Hpre Hlen].
  { rewrite menu_step_tables. destruct c; simpl; try (split; [done|lia]).
    - destruct (issue_book_cases s user_id name book_id now) as [->|(row & _ & _ & ->)];
        simpl; [split; [done|lia]|].
      split; [by apply prefix_app_r|]. rewrite length_app. simpl. lia.
    - destruct (return_book_cases s user_id book_id now) as [->|(l & rest & _ & ->)];
        simpl; [split; [done|lia]|].
      split; [by apply prefix_app_r|]. rewrite length_app. simpl. lia. }
  destruct (menu_step c s).2 as [s'|s']; simpl in *; [|split; [done|lia]].
  destruct (IH s') as [Hpre' Hlen']. split; [by trans (logs s')|lia].
Qed.

(** ** The rows on file *)






Lemma loans_extend_refl users : loans_extend users users.
Proof. intros i l Hl. by exists l. Qed.

Lemma loans_extend_trans users1 users2 users3 :
  loans_extend users1 users2 → loans_extend users2 users3 →
  loans_extend users1 users3.
Proof.
  intros H12 H23 i l Hl.
  destruct (H12 i l Hl) as (l2 & Hl2 & ? & ? & ? & ? & Hr2).
  destruct (H23 i l2 Hl2) as (l3 & Hl3 & ? & ? & ? & ? & Hr3).
  exists l3. repeat split; try congruence. intros t Ht. by apply Hr3, Hr2.
Qed.

Lemma loans_extend_close user_id book_id now users :
  loans_extend users (loc_update (active user_id book_id) (Loan.close now) users).
Proof.
  intros i l Hl. rewrite loc_update_lookup, Hl. simpl.
  eexists; split; [done|].
  destruct (decide (active user_id book_id l)) as [(_ & _ & Hout)|_]; simpl;
    repeat split; try done.
  intros t Ht. congruence.
Qed.

Lemma loans_extend_step c s :
  loans_extend (users s) (users (tables_of (menu_step c s).2)).
Proof.
  rewrite menu_step_tables. destruct c; simpl; try apply loans_extend_refl.
  - destruct (issue_book_cases s user_id name book_id now) as [->|(row & _ & _ & ->)];
      [apply loans_extend_refl|]. simpl.
    intros i l Hl. exists l. by rewrite lookup_app_l by by eapply lookup_lt_Some.
  - destruct (return_book_cases s user_id book_id now) as [->|(l & rest & _ & ->)];
      [apply loans_extend_refl|apply loans_extend_close].
Qed.

(** X3.  No session removes or rewrites a loan: every row of the loans table
    is still at its place afterwards with its UserID, Name, BookID and
    IssueDate, and a ReturnDate that was set is never changed or cleared. *)
Theorem loans_rows_persist (inputs : list choice) (s : tables) :
  loans_extend (users s) (users (tables_of (main_loop inputs s))).
Proof.
  revert s. induction inputs as [|c inputs IH]; intros s; simpl;
    [apply loans_extend_refl|].
  pose proof (loans_extend_step c s) as Hstep.
  destruct (menu_step c s).2 as [s'|s']; simpl in *; [|done].
  by eapply loans_extend_trans.
Qed.

(** ** Unique BookIDs *)

Lemma unique_ids_step c s :
  NoDup (Book.BookID <$> books s) →
  NoDup (Book.BookID <$> books (tables_of (menu_step c s).2)).
Proof.
  intros Hnd. rewrite menu_step_tables. destruct c; simpl; try done.
  - destruct (add_book_cases (books s) book_id title author copies)
      as [->|(n & _ & _ & Hnew & ->)]; [done|].
    rewrite fmap_app. apply NoDup_app. split; [done|]. split.
    + by intros x Hx ->%list_elem_of_singleton.
    + apply NoDup_singleton.
  - destruct (issue_book_cases s user_id name book_id now) as [->|(row & _ & _ & ->)];
      [done|]. simpl. by rewrite book_ids_adjust.
  - destruct (return_book_cases s user_id book_id now) as [->|(l & rest & _ & ->)];
      [done|]. simpl. by rewrite book_ids_adjust.
Qed.

(** On tables whose ids are typed text, add_book refuses a BookID that is
    on file and no other operation files one: a Books table with no BookID
    twice has none twice after any run of the menu. *)
Lemma book_ids_stay_unique (inputs : list choice) (s : tables) :
  NoDup (Book.BookID <$> books s) →
  NoDup (Book.BookID <$> books (tables_of (main_loop inputs s))).
Proof.
  apply (main_loop_invariant (λ s, NoDup (Book.BookID <$> books s))).
  intros c s'. apply unique_ids_step.
Qed.

(** X4.  In a session started from the empty tables no BookID is ever
    filed twice: every id on file was typed in the session, add_book is the
    only operation that files one, and it refuses one that is on file. *)
Theorem fresh_session_ids_unique (inputs : list choice) :
  NoDup (Book.BookID <$> books (tables_of (main_loop inputs empty_tables))).
Proof. apply book_ids_stay_unique. apply NoDup_nil_2. Qed.

(** ** Loans and the log *)

Lemma loan_records_close user_id book_id now users :
  loan_records (loc_update (active user_id book_id) (Loan.close now) users)
  = loan_records users.
Proof.
  unfold loan_records, loc_update. rewrite <-list_fmap_compose.
  apply list_fmap_ext. intros i l _. simpl. by case_decide.
Qed.

Lemma records_step c s :
  issue_records (logs s) = loan_records (users s) →
  issue_records (logs (tables_of (menu_step c s).2))
  = loan_records (users (tables_of (menu_step c s).2)).
Proof.
  intros Hrec. rewrite menu_step_tables. destruct c; simpl; try done.
  - destruct (issue_book_cases s user_id name book_id now) as [->|(row & _ & _ & ->)];
      [done|]. simpl. unfold issue_records, loan_records in *.
    rewrite filter_app, !fmap_app, Hrec. f_equal.
  - destruct (return_book_cases s user_id book_id now) as [->|(l & rest & _ & ->)];
      [done|]. simpl. rewrite loan_records_close. unfold issue_records in *.
    by rewrite filter_app, fmap_app, <-Hrec, app_nil_r.
Qed.

(** X5.  Loans and log agree: if the "Issued" entries of the log list, in
    order, the user, book and date of the rows of the loans table, they
    still do after any session; from the empty tables they always do. *)
Theorem issued_log_matches_loans (inputs : list choice) (s : tables) :
  (issue_records (logs s) = loan_records (users s) →
   issue_records (logs (tables_of (main_loop inputs s)))
   = loan_records (users (tables_of (main_loop inputs s))))
  ∧ issue_records (logs (tables_of (main_loop inputs empty_tables)))
    = loan_records (users (tables_of (main_loop inputs empty_tables))).
Proof.
  split.
  - apply (main_loop_invariant
             (λ s, issue_records (logs s) = loan_records (users s))).
    intros c s'. apply records_step.
  - by apply (main_loop_invariant
                (λ s, issue_records (logs s) = loan_records (users s)));
      [intros c s'; apply records_step|].
Qed.

(** ** Copies are never lent twice *)





(** ** The grace period *)

(** X8.  A fine is charged exactly from the fifteenth full day after the
    IssueDate on: it is 5 for each full day past the fourteenth, never
    negative, never smaller for a later return, and the "Late return" line
    is left out exactly when fewer than fifteen full days have passed. *)
Theorem late_fine_boundary (today issue_date : timestamp) :
  let fine := fine_of (return_days today issue_date) in
  (0 < fine ↔ issue_date + 15 * DAY ≤ today)
  ∧ fine = 5 * (0 `max` (return_days today issue_date - 14))
  ∧ (message (BookReturned fine) = ["Book returned."]
     ↔ today < issue_date + 15 * DAY)
  ∧ ∀ later, today ≤ later → fine ≤ fine_of (return_days later issue_date).
Proof.
  cbv zeta. pose proof (return_days_floor today issue_date) as Hfloor.
  assert (0 < fine_of (return_days today issue_date)
          ↔ issue_date + 15 * DAY ≤ today) as Hpos.
  { unfold fine_of, FINE_PER_DAY, DAY in *. lia. }
  split; [done|]. split; [unfold fine_of, FINE_PER_DAY; lia|]. split.
  - simpl. case_bool_decide as Hfine.
    + split; [done|]. intros Hearly. apply Hpos in Hfine. lia.
    + split; [|done]. intros _. rewrite Hpos in Hfine. lia.
  - intros later Hlater.
    assert (return_days today issue_date ≤ return_days later issue_date).
    { unfold return_days. apply Z.div_le_mono; [done|lia]. }
    unfold fine_of, FINE_PER_DAY. lia.
Qed.

(** ** Issue and return together *)


Lemma select_active_close user_id book_id now users :
  select (active user_id book_id)
    (loc_update (active user_id book_id) (Loan.close now) users) = [].
Proof.
  apply select_nil. intros l' (l & -> & Hl)%list_elem_of_fmap.
  destruct (decide (active user_id book_id l)) as [Hact|Hno]; [|done].
  by intros (_ & _ & Hout).
Qed.




(** ** As many issues as copies *)

(** On tables whose ids are typed text and whose counts are exact: with
    unique BookIDs, a run of requests for one book is granted from the first
    on until its AvailableCopies are used up and refused from then on. *)
Lemma issues_granted_while_available (requests : list (string * string * timestamp))
    (s : tables) (b : Book.t) :
  NoDup (Book.BookID <$> books s) →
  b ∈ books s →
  let s' := tables_of (main_loop (issue_requests (Book.BookID b) requests) s) in
  let granted := (length requests `min` Z.to_nat (Book.AvailableCopies b))%nat in
  length (users s') = (length (users s) + granted)%nat
  ∧ ∃ b', b' ∈ books s'
          ∧ Book.BookID b' = Book.BookID b
          ∧ Book.TotalCopies b' = Book.TotalCopies b
          ∧ Book.AvailableCopies b' = Book.AvailableCopies b - Z.of_nat granted.
Proof.
  cbv zeta. revert s b.
  induction requests as [|[[user_id name] now] requests IH]; intros s b Hnd Hb.
  { simpl. split; [lia|]. exists b. repeat split; [done|lia]. }
  remember (length ((user_id, name, now) :: requests)
            `min` Z.to_nat (Book.AvailableCopies b))%nat as granted eqn:Hgranted.
  change (length ((user_id, name, now) :: requests))
    with (S (length requests)) in Hgranted.
  simpl.
  assert (head (select (λ b', Book.BookID b' = Book.BookID b) (books s)) = Some b)
    as Hrow by (by rewrite select_unique_row).
  rewrite (issue_book_unfold _ _ _ _ _ _ Hrow).
  case_bool_decide as Hnone; simpl.
  - assert (Z.to_nat (Book.AvailableCopies b) = 0%nat) as Hzero by lia.
    destruct (IH s b Hnd Hb) as (Hlen & b' & ? & ? & ? & Hav).
    rewrite Hzero, Nat.min_0_r in *. subst granted.
    split; [done|]. by exists b'.
  - set (s1 := Tables _ _ _).
    assert (NoDup (Book.BookID <$> books s1)) as Hnd1
      by (by simpl; rewrite book_ids_adjust).
    assert (Book.adjust (-1) b ∈ books s1) as Hb1.
    { simpl. apply list_elem_of_fmap. exists b. by rewrite decide_True. }
    destruct (IH s1 (Book.adjust (-1) b) Hnd1 Hb1) as (Hlen & b' & ? & ? & ? & Hav).
    assert (Z.to_nat (Book.AvailableCopies b)
            = S (Z.to_nat (Book.AvailableCopies b + -1))) as Hsucc by lia.
    rewrite Hsucc, <-Nat.succ_min_distr in Hgranted. subst granted.
    simpl in Hlen, Hav. rewrite length_app in Hlen. simpl in Hlen.
    split; [lia|]. exists b'. repeat split; [done..|lia].
Qed.

(** X10.  In a session started from the empty tables, with every copy
    count on file within the 64-bit range, a run of requests for one book
    on file is granted from the first on until its AvailableCopies are used
    up and refused from then on: the loans table grows by
    min(requests, AvailableCopies) rows and the book's AvailableCopies falls
    by as much. *)
Theorem issues_granted_in_session (inputs : list choice)
    (requests : list (string * string * timestamp)) (b : Book.t) :
  let s := tables_of (main_loop inputs empty_tables) in
  b ∈ books s →
  counts_in_int64 s →
  let s' := tables_of (main_loop (issue_requests (Book.BookID b) requests) s) in
  let granted := (length requests `min` Z.to_nat (Book.AvailableCopies b))%nat in
  length (users s') = (length (users s) + granted)%nat
  ∧ ∃ b', b' ∈ books s'
          ∧ Book.BookID b' = Book.BookID b
          ∧ Book.TotalCopies b' = Book.TotalCopies b
          ∧ Book.AvailableCopies b' = Book.AvailableCopies b - Z.of_nat granted.
Proof.
  intros s Hb _. apply issues_granted_while_available; [|done].
  apply book_ids_stay_unique. apply NoDup_nil_2.
Qed.

Lemma issues_granted_in_session_witness :
  length (users (tables_of (main_loop
    (issue_requests "B1" [("U1", "Alice", 1000); ("U2", "Bob", 2000);
                          ("U3", "Carl", 3000)])
    (Tables [Book.mk "B1" "Emma" "Austen" 2 2] [] [])))) = 2%nat.
Proof.
  refine (proj1 (issues_granted_in_session
            [MenuAdd "B1" "Emma" "Austen" (Some 2)]
            [("U1", "Alice", 1000); ("U2", "Bob", 2000); ("U3", "Carl", 3000)]
            (Book.mk "B1" "Emma" "Austen" 2 2) _ _)).
  - simpl. left.
  - apply Forall_singleton. by vm_compute.
Defined.

(** * The files *)

Section files_facts.
Variable format_timestamp : timestamp → string.
Variable parse_timestamp : string → option timestamp.

Lemma create_if_missing_lookup path cols (fs : file_system) p :
  create_if_missing format_timestamp path cols fs !! p
  = match fs !! p with
    | Some f => Some f
    | None => if decide (p = path) then Some (Csv cols []) else None
    end.
Proof.
  unfold create_if_missing. destruct (fs !! path) as [f|] eqn:Hpath.
  - destruct (fs !! p) eqn:Hp; [done|]. case_decide; [congruence|done].
  - destruct (decide (p = path)) as [->|Hne].
    + by rewrite fin_maps.lookup_insert_eq, Hpath.
    + rewrite fin_maps.lookup_insert_ne by done. by destruct (fs !! p).
Qed.

Lemma ensure_files_lookup (fs : file_system) p :
  ensure_files format_timestamp fs !! p
  = match fs !! p with
    | Some f => Some f
    | None => fresh_file p
    end.
Proof.
  unfold ensure_files, fresh_file. rewrite !create_if_missing_lookup.
  destruct (fs !! p); [done|].
  destruct (decide (p = BOOKS_FILE)) as [->|?]; [done|].
  destruct (decide (p = USERS_FILE)) as [->|?]; [done|].
  by destruct (decide (p = LOGS_FILE)).
Qed.



(** After ensure_files, load_data finds each of its files. *)
Lemma load_after_ensure_files (fs : file_system) :
  is_Some (load_files parse_timestamp (ensure_files format_timestamp fs)).
Proof.
  unfold load_files. rewrite !ensure_files_lookup.
  destruct (fs !! BOOKS_FILE), (fs !! USERS_FILE), (fs !! LOGS_FILE);
    simpl; by eexists.
Qed.

Lemma main_files_session inputs s (fs : file_system) :
  (main_files format_timestamp inputs s fs).1 = main_loop inputs s.
Proof.
  revert s fs. induction inputs as [|c inputs IH]; intros s fs; simpl; [done|].
  destruct (menu_step c s).2; [apply IH|done].
Qed.

Lemma save_files_lookup s (fs : file_system) p :
  save_files format_timestamp s fs !! p
  = if decide (p = LOGS_FILE)
    then Some (to_csv format_timestamp (logs_frame (logs s)))
    else if decide (p = USERS_FILE)
    then Some (to_csv format_timestamp (users_frame (users s)))
    else if decide (p = BOOKS_FILE)
    then Some (to_csv format_timestamp (books_frame (books s)))
    else fs !! p.
Proof.
  unfold save_files, save_data, frames.
  destruct (decide (p = LOGS_FILE)) as [->|?];
    [by rewrite fin_maps.lookup_insert_eq|rewrite fin_maps.lookup_insert_ne by done].
  destruct (decide (p = USERS_FILE)) as [->|?];
    [by rewrite fin_maps.lookup_insert_eq|rewrite fin_maps.lookup_insert_ne by done].
  destruct (decide (p = BOOKS_FILE)) as [->|?];
    [by rewrite fin_maps.lookup_insert_eq|by rewrite fin_maps.lookup_insert_ne by done].
Qed.

(** X13.  Nothing is saved before Exit: as long as choice 7 has not been
    typed, every file other than the export file, the three table files
    among them, is as it was when the loop was entered, whatever was added,
    issued or returned. *)
Theorem nothing_saved_before_exit (inputs : list choice) (s : tables)
    (fs : file_system) :
  MenuExit ∉ inputs →
  ∀ p, p ≠ EXPORT_FILE →
    (main_files format_timestamp inputs s fs).2 !! p = fs !! p.
Proof.
  revert s fs. induction inputs as [|c inputs IH]; intros s fs Hno; simpl; [done|].
  apply not_elem_of_cons in Hno as [Hc Hno].
  destruct c; simpl; try done; try by apply IH.
  - destruct (add_book _ _ _ _ _) as [o books']. simpl. by apply IH.
  - destruct (issue_book _ _ _ _ _) as [o s']. simpl. by apply IH.
  - destruct (return_book _ _ _ _) as [o s']. simpl. by apply IH.
  - intros p Hp. rewrite IH by done.
    unfold export_logs. by rewrite fin_maps.lookup_insert_ne.
Qed.

(** X14.  When choice 7 is reached, the three table files hold what
    save_data writes for the tables of that moment, so that a later
    load_data reads exactly those files; every other file except the export
    file is as it was. *)
Theorem exit_saves_the_tables (inputs : list choice) (s saved : tables)
    (fs : file_system) :
  main_loop inputs s = Exited saved →
  let fs' := (main_files format_timestamp inputs s fs).2 in
  fs' !! BOOKS_FILE = Some (to_csv format_timestamp (books_frame (books saved)))
  ∧ fs' !! USERS_FILE = Some (to_csv format_timestamp (users_frame (users saved)))
  ∧ fs' !! LOGS_FILE = Some (to_csv format_timestamp (logs_frame (logs saved)))
  ∧ load_files parse_timestamp fs'
    = Some (load_data parse_timestamp (save_data format_timestamp (frames saved)))
  ∧ ∀ p, p ≠ BOOKS_FILE → p ≠ USERS_FILE → p ≠ LOGS_FILE → p ≠ EXPORT_FILE →
      fs' !! p = fs !! p.
Proof.
  cbv zeta. revert s fs.
  induction inputs as [|c inputs IH]; intros s fs Hexit; simpl in *; [done|].
  destruct c; simpl in *;
    try (destruct (IH s fs Hexit) as (? & ? & ? & ? & ?); by repeat split).
  - destruct (add_book _ _ _ _ _) as [o books']. simpl in *. by apply IH.
  - destruct (issue_book _ _ _ _ _) as [o s']. simpl in *. by apply IH.
  - destruct (return_book _ _ _ _) as [o s']. simpl in *. by apply IH.
  - destruct (IH s (export_logs format_timestamp (logs s) fs) Hexit)
      as (? & ? & ? & ? & Hrest).
    repeat split; try done. intros p ? ? ? ?. rewrite Hrest by done.
    unfold export_logs. by rewrite fin_maps.lookup_insert_ne.
  - injection Hexit as <-. unfold load_files. rewrite !save_files_lookup.
    repeat split; try done. intros p ? ? ? ?. rewrite save_files_lookup.
    by rewrite !decide_False.
Qed.
End files_facts.


Lemma nothing_saved_before_exit_witness :
  (main_files pretty
     [MenuAdd "B1" "Emma" "Austen" (Some 2); MenuIssue "U1" "Alice" "B1" 1000;
      MenuExport]
     empty_tables (ensure_files pretty (∅ : file_system))).2 !! BOOKS_FILE
  = Some (Csv BOOKS_COLUMNS []).
Proof.
  assert (MenuExit ∉ [MenuAdd "B1" "Emma" "Austen" (Some 2);
                      MenuIssue "U1" "Alice" "B1" 1000; MenuExport]) as Hno.
  { rewrite !not_elem_of_cons. repeat split; try done. apply not_elem_of_nil. }
  rewrite (nothing_saved_before_exit pretty _ empty_tables
             (ensure_files pretty ∅) Hno BOOKS_FILE) by (by vm_compute).
  by rewrite ensure_files_lookup, fin_maps.lookup_empty.
Defined.

Lemma exit_saves_the_tables_witness :
  (main_files pretty
     [MenuAdd "B1" "Emma" "Austen" (Some 2); MenuExit; MenuAdd "B2" "Dune" "Herbert" (Some 1)]
     empty_tables (∅ : file_system)).2 !! BOOKS_FILE
  = Some (Csv BOOKS_COLUMNS [["B1"; "Emma"; "Austen"; "2"; "2"]]).
Proof.
  exact (proj1 (exit_saves_the_tables pretty int_literal
           [MenuAdd "B1" "Emma" "Austen" (Some 2); MenuExit;
            MenuAdd "B2" "Dune" "Herbert" (Some 1)]
           empty_tables (Tables [Book.mk "B1" "Emma" "Austen" 2 2] [] []) ∅ eq_refl)).
Defined.

(** ** Leaving the loop *)

Lemma main_loop_app pre post s :
  main_loop (pre ++ post) s =
    match main_loop pre s with
    | AwaitingChoice s' => main_loop post s'
    | Exited saved => Exited saved
    end.
Proof.
  revert s. induction pre as [|c pre IH]; intros s; simpl; [done|].
  destruct (menu_step c s).2; [apply IH|done].
Qed.

Lemma main_loop_running inputs s :
  MenuExit ∉ inputs → ∃ s', main_loop inputs s = AwaitingChoice s'.
Proof.
  revert s. induction inputs as [|c inputs IH]; intros s Hno; simpl; [by eexists|].
  apply not_elem_of_cons in Hno as [Hc Hno].
  destruct c; simpl; try done; try by apply IH.
  - destruct (add_book _ _ _ _ _). by apply IH.
  - destruct (issue_book _ _ _ _ _). by apply IH.
  - destruct (return_book _ _ _ _). by apply IH.
Qed.

(** X15.  When the loop is left through choice 7, it is left at the first
    7 of the input, with the tables reached by the choices typed before it,
    and nothing typed after it is read: whatever follows that 7, the
    session ends there with the same tables. *)
Theorem exit_ends_the_session (inputs : list choice) (s saved : tables) :
  main_loop inputs s = Exited saved →
  ∃ pre post,
    inputs = pre ++ MenuExit :: post
    ∧ (MenuExit ∉ pre)
    ∧ saved = tables_of (main_loop pre s)
    ∧ ∀ later, main_loop (pre ++ MenuExit :: later) s = Exited saved.
Proof.
  intros Hexit.
  assert (MenuExit ∈ inputs) as Hin.
  { destruct (decide (MenuExit ∈ inputs)) as [|Hno]; [done|].
    destruct (main_loop_running inputs s Hno) as [s' Hrun]. congruence. }
  apply list_elem_of_split_l in Hin as (pre & post & -> & Hpre).
  destruct (main_loop_running pre s Hpre) as [s' Hrun].
  rewrite main_loop_app, Hrun in Hexit. simpl in Hexit. injection Hexit as <-.
  exists pre, post. rewrite Hrun. repeat split; [done|].
  intros later. by rewrite main_loop_app, Hrun.
Qed.

Lemma exit_ends_the_session_witness :
  ∃ pre post,
    [MenuAdd "B1" "Emma" "Austen" (Some 2); MenuExit;
     MenuAdd "B2" "Dune" "Herbert" (Some 1); MenuExit]
    = pre ++ MenuExit :: post
    ∧ (MenuExit ∉ pre)
    ∧ Tables [Book.mk "B1" "Emma" "Austen" 2 2] [] []
      = tables_of (main_loop pre empty_tables)
    ∧ ∀ later,
        main_loop (pre ++ MenuExit :: later) empty_tables
        = Exited (Tables [Book.mk "B1" "Emma" "Austen" 2 2] [] []).
Proof.
  apply (exit_ends_the_session
           [MenuAdd "B1" "Emma" "Austen" (Some 2); MenuExit;
            MenuAdd "B2" "Dune" "Herbert" (Some 1); MenuExit]
           empty_tables (Tables [Book.mk "B1" "Emma" "Austen" 2 2] [] [])).
  reflexivity.
Defined.

(** * What save_data and load_data keep *)

Lemma digit_pretty_N_char x :
  (x < 10)%N → digit (pretty_N_char x) = Some (Z.of_N x).
Proof.
  intros Hx.
  assert (x = 0 ∨ x = 1 ∨ x = 2 ∨ x = 3 ∨ x = 4 ∨ x = 5 ∨ x = 6 ∨ x = 7
          ∨ x = 8 ∨ x = 9)%N as Hcases by lia.
  destruct Hcases as [->|[->|[->|[->|[->|[->|[->|[->|[->| ->]]]]]]]]]; done.
Qed.

(** Reading the digits [pretty] writes gives the number back. *)
Lemma digits_pretty_N_go x :
  ∃ k : nat, ∀ acc s,
    digits acc (pretty_N_go x s) = digits (acc * 10 ^ Z.of_nat k + Z.of_N x) s.
Proof.
  induction (N.lt_wf_0 x) as [x _ IH].
  destruct (decide (x = 0)%N) as [->|Hpos].
  { exists 0%nat. intros acc s. rewrite pretty_N_go_0. f_equal. lia. }
  destruct (IH (x `div` 10)%N) as [k Hk]; [apply N.div_lt; lia|].
  exists (S k). intros acc s. rewrite pretty_N_go_step by lia. rewrite Hk. simpl.
  rewrite digit_pretty_N_char by (apply N.mod_lt; lia). simpl. f_equal.
  rewrite Nat2Z.inj_succ, Z.pow_succ_r by lia.
  rewrite N2Z.inj_div, N2Z.inj_mod.
  pose proof (Z.div_mod (Z.of_N x) 10). change (Z.of_N 10) with 10. lia.
Qed.

Lemma digits_pretty_N (x : N) : digits 0 (pretty x) = Some (Z.of_N x).
Proof.
  unfold pretty, pretty_N. case_decide as Hx; [by subst|].
  destruct (digits_pretty_N_go x) as [k Hk]. rewrite Hk. simpl. f_equal; lia.
Qed.

Lemma int_literal_digits t v :
  digits 0 t = Some v → t ≠ "" → int_literal t = Some v.
Proof.
  destruct t as [|c t]; [done|]. intros Hdigits _.
  destruct (decide (c = "-"%char)) as [->|Hminus]; [done|].
  destruct (decide (c = "+"%char)) as [->|Hplus]; [done|].
  unfold int_literal.
  destruct c as [[] [] [] [] [] [] [] []]; done.
Qed.

(** A whole number written by [to_csv] is read back by [read_csv] as the
    same number. *)
Lemma int_literal_pretty (n : Z) : int_literal (pretty n) = Some n.
Proof.
  destruct n as [|p|p]; [done|..].
  - apply int_literal_digits.
    + apply (digits_pretty_N (N.pos p)).
    + intros Hempty. pose proof (digits_pretty_N (N.pos p)) as Hd.
      unfold pretty, pretty_Z, pretty, pretty_positive in Hempty.
      by rewrite Hempty in Hd.
  - pose proof (digits_pretty_N (N.pos p)) as Hd.
    change (pretty (Z.neg p)) with (String "-"%char (pretty (N.pos p))).
    destruct (pretty (N.pos p)) as [|c t] eqn:Htext; [done|].
    unfold int_literal. by rewrite Hd.
Qed.

Lemma na_values_not_int f : f ∈ na_values → int_literal f = None.
Proof.
  assert (Forall (λ f, int_literal f = None) na_values) as Hall
    by (by repeat constructor).
  rewrite Forall_forall in Hall. apply Hall.
Qed.

Lemma pretty_not_na (n : Z) : pretty n ∉ na_values.
Proof.
  intros Hna%na_values_not_int. by rewrite int_literal_pretty in Hna.
Qed.

(** A column of whole numbers comes back as it was written. *)
Lemma infer_column_numbers (ns : list Z) :
  infer_column (pretty <$> ns) = Num <$> ns.
Proof.
  unfold infer_column.
  assert (mapM (λ f, if bool_decide (f ∈ na_values) then Some Missing
                     else Num <$> int_literal f) (pretty <$> ns)
          = Some (Num <$> ns)) as ->; [|done].
  apply mapM_Some. apply Forall2_fmap. apply Forall_Forall2_diag, Forall_forall.
  intros n _. rewrite bool_decide_eq_false_2 by apply pretty_not_na.
  by rewrite int_literal_pretty.
Qed.

(** The cell a conversion makes of a missing field is the missing value,
    whatever becomes of the rest of the column. *)
Lemma mapM_lookup {A B} (f : A → option B) l k j x :
  mapM f l = Some k → l !! j = Some x → ∃ y, k !! j = Some y ∧ f x = Some y.
Proof.
  intros Hall%mapM_Some Hx.
  destruct (Forall2_lookup_l _ _ _ _ _ Hall Hx) as (y & ? & ?). eauto.
Qed.

Lemma infer_column_missing fields j f :
  fields !! j = Some f → f ∈ na_values → infer_column fields !! j = Some Missing.
Proof.
  intros Hj Hna. unfold infer_column.
  destruct (mapM _ fields) as [cells|] eqn:Hcells.
  - destruct (mapM_lookup _ _ _ _ _ Hcells Hj) as (y & -> & Hy).
    by rewrite bool_decide_eq_true_2 in Hy.
  - rewrite list_lookup_fmap, Hj. simpl. by rewrite bool_decide_eq_true_2.
Qed.

Section storage_facts.
Variable format_timestamp : timestamp → string.
Variable parse_timestamp : string → option timestamp.

Lemma infer_date_column_missing fields j f :
  fields !! j = Some f → f ∈ na_values →
  infer_date_column parse_timestamp fields !! j = Some Missing.
Proof.
  intros Hj Hna. unfold infer_date_column.
  destruct (mapM _ fields) as [cells|] eqn:Hcells.
  - destruct (mapM_lookup _ _ _ _ _ Hcells Hj) as (y & -> & Hy).
    by rewrite bool_decide_eq_true_2 in Hy.
  - by eapply infer_column_missing.
Qed.

(** Row [j] of a frame read by [read_csv], cell by cell. *)
Lemma read_csv_row parse_dates (file : csv) j :
  (j < length (records file))%nat →
  rows (read_csv parse_timestamp parse_dates file) !! j
  = Some ((λ col, default Missing (col !! j))
            <$> imap (λ i name,
                        let fields := (λ r, default "" (r !! i)) <$> records file in
                        if isin name parse_dates
                        then infer_date_column parse_timestamp fields
                        else infer_column fields)
                     (header file)).
Proof.
  intros Hj. unfold read_csv. simpl.
  by rewrite list_lookup_fmap, lookup_seq_lt.
Qed.

(** Column [i] of the fields [to_csv] writes for the rows [mk x]. *)
Lemma column_of_rows {A} (mk : A → list cell) (g : A → string) i (l : list A) :
  (∀ x, default "" ((to_csv_cell format_timestamp <$> mk x) !! i) = g x) →
  (λ r : list string, default "" (r !! i))
    <$> ((λ r : list cell, to_csv_cell format_timestamp <$> r) <$> (mk <$> l))
  = g <$> l.
Proof.
  intros Hcol. rewrite <-!list_fmap_compose. apply list_fmap_ext.
  intros k x _. apply Hcol.
Qed.

(** X16.  The copy counts survive save_data and load_data: every row of
    the Books table that is written is read back at its place with the same
    TotalCopies and AvailableCopies, as numbers. *)
Theorem copy_counts_survive_reload (books : list Book.t) (j : nat) (b : Book.t) :
  Forall (λ b, int64 (Book.TotalCopies b) ∧ int64 (Book.AvailableCopies b)) books →
  books !! j = Some b →
  ∃ book_id title author,
    rows (read_csv parse_timestamp [] (to_csv format_timestamp (books_frame books)))
      !! j
    = Some [book_id; title; author;
            Num (Book.TotalCopies b); Num (Book.AvailableCopies b)].
Proof.
  intros _ Hb.
  rewrite read_csv_row by (simpl; rewrite !length_fmap; by eapply lookup_lt_Some).
  simpl. do 3 eexists. do 4 f_equal.
  rewrite (column_of_rows _ (pretty ∘ Book.TotalCopies)) by (intros x; reflexivity).
  rewrite (column_of_rows _ (pretty ∘ Book.AvailableCopies))
    by (intros x; reflexivity).
  rewrite !list_fmap_compose, !infer_column_numbers, !list_lookup_fmap, Hb. done.
Qed.

(** X17.  A loan that is outstanding when the tables are saved is
    outstanding when they are loaded: its row is read back at its place
    with a missing ReturnDate. *)
Theorem outstanding_loans_survive_reload (users : list Loan.t) (j : nat)
    (l : Loan.t) :
  users !! j = Some l →
  Loan.ReturnDate l = None →
  ∃ user_id name book_id issue_date,
    rows (read_csv parse_timestamp ["IssueDate"; "ReturnDate"]
            (to_csv format_timestamp (users_frame users))) !! j
    = Some [user_id; name; book_id; issue_date; Missing].
Proof.
  intros Hl Hout.
  rewrite read_csv_row by (simpl; rewrite !length_fmap; by eapply lookup_lt_Some).
  simpl. do 4 eexists. do 5 f_equal.
  erewrite infer_date_column_missing; [done| |by left].
  rewrite !list_lookup_fmap, Hl. simpl. by rewrite Hout.
Qed.
End storage_facts.

Lemma copy_counts_survive_reload_witness :
  ∃ book_id title author,
    rows (read_csv int_literal []
            (to_csv pretty (books_frame [Book.mk "007" "Dune" "" 12 (-3)]))) !! 0%nat
    = Some [book_id; title; author; Num 12; Num (-3)].
Proof.
  apply (copy_counts_survive_reload pretty int_literal
           [Book.mk "007" "Dune" "" 12 (-3)] 0 (Book.mk "007" "Dune" "" 12 (-3))).
  - apply Forall_singleton. by vm_compute.
  - reflexivity.
Defined.

Lemma outstanding_loans_survive_reload_witness :
  ∃ user_id name book_id issue_date,
    rows (read_csv int_literal ["IssueDate"; "ReturnDate"]
            (to_csv pretty
               (users_frame [Loan.mk "U1" "Alice" "B1" 1000 (Some 2000);
                             Loan.mk "U2" "Bob" "B1" 3000 None]))) !! 1%nat
    = Some [user_id; name; book_id; issue_date; Missing].
Proof.
  apply (outstanding_loans_survive_reload pretty int_literal
           [Loan.mk "U1" "Alice" "B1" 1000 (Some 2000);
            Loan.mk "U2" "Bob" "B1" 3000 None] 1 (Loan.mk "U2" "Bob" "B1" 3000 None)).
  - reflexivity.
  - reflexivity.
Defined.

(** * More on the operations *)

(** ** Returning twice, adding twice *)

(** X18.  A return cannot be repeated: whatever the first return of a book
    by a user did, a second one right after it finds no active loan and
    leaves the tables as the first left them. *)
Theorem second_return_is_refused (s : tables) (user_id book_id : string)
    (first second : timestamp) :
  return_book (return_book s user_id book_id first).2 user_id book_id second
  = (NoActiveLoan, (return_book s user_id book_id first).2).
Proof.
  apply return_book_no_match.
  destruct (select (active user_id book_id) (users s)) as [|loan rest] eqn:Hsel.
  - by rewrite (return_book_no_match _ _ _ _ Hsel).
  - rewrite (return_book_unfold _ _ _ _ loan) by (by rewrite Hsel). simpl.
    apply select_active_close.
Qed.

Lemma add_book_added books book_id title author copies :
  (add_book books book_id title author copies).1 = BookAdded →
  ∃ n, copies = Some n ∧ 1 ≤ n ∧ (book_id ∉ Book.BookID <$> books)
       ∧ (add_book books book_id title author copies).2
         = books ++ [Book.mk book_id title author n n].
Proof.
  unfold add_book. destruct (isin _ _) eqn:Hnew; [done|].
  destruct copies as [n|]; [|done]. case_bool_decide; [done|].
  intros _. exists n. apply isin_false in Hnew. repeat split; [lia|done].
Qed.

(** X19.  A book that has just been added is on file: adding its BookID
    again is refused as a duplicate whatever else is typed, and it can be
    issued at once. *)
Theorem added_book_is_on_file (s : tables) (book_id title author : string)
    (copies : option Z) :
  (add_book (books s) book_id title author copies).1 = BookAdded →
  let books' := (add_book (books s) book_id title author copies).2 in
  (∀ title' author' copies',
     add_book books' book_id title' author' copies' = (DuplicateID, books'))
  ∧ ∀ user_id name now,
      (issue_book (Tables books' (users s) (logs s)) user_id name book_id now).1
      = BookIssued.
Proof.
  intros Hadded. cbv zeta.
  destruct (add_book_added _ _ _ _ _ Hadded) as (n & -> & Hn & Hnew & Hbooks).
  rewrite Hbooks. split.
  - intros title' author' copies'. unfold add_book.
    assert (isin book_id (Book.BookID <$> books s ++ [Book.mk book_id title author n n])
            = true) as ->; [|done].
    apply isin_true. rewrite fmap_app, elem_of_app. right. left.
  - intros user_id name now.
    rewrite (issue_book_unfold _ _ _ _ _ (Book.mk book_id title author n n)).
    + simpl. by rewrite bool_decide_eq_false_2 by lia.
    + simpl. unfold select. rewrite filter_app.
      assert (filter (λ b, Book.BookID b = book_id) (books s) = []) as ->.
      { apply (select_nil _). intros b Hb Hid. apply Hnew. rewrite <-Hid.
        by apply list_elem_of_fmap_2. }
      rewrite app_nil_l. by rewrite filter_cons_True.
Qed.

Lemma added_book_is_on_file_witness :
  add_book (add_book [] "B1" "Emma" "Austen" (Some 2)).2 "B1" "Dune" "Herbert" None
  = (DuplicateID, (add_book [] "B1" "Emma" "Austen" (Some 2)).2).
Proof.
  exact (proj1 (added_book_is_on_file empty_tables "B1" "Emma" "Austen" (Some 2)
                  eq_refl) "Dune" "Herbert" None).
Defined.

(** ** The bars of the chart *)









(** ** The export *)

Section export_facts.
Variable format_timestamp : timestamp → string.

Lemma main_files_app pre post s (fs : file_system) :
  main_files format_timestamp (pre ++ post) s fs =
    match main_files format_timestamp pre s fs with
    | (AwaitingChoice s', fs') => main_files format_timestamp post s' fs'
    | (Exited saved, fs') => (Exited saved, fs')
    end.
Proof.
  revert s fs. induction pre as [|c pre IH]; intros s fs; simpl; [done|].
  destruct (menu_step c s).2; [apply IH|done].
Qed.

(** X21.  Choice 6 writes the log as it stands at that moment, entries of
    the running session included, to a file of its own: the text is the one
    choice 7 would write to logs.csv at the same moment, and none of the
    three table files is the export file. *)
Theorem export_writes_current_log (pre : list choice) (s : tables)
    (fs : file_system) :
  MenuExit ∉ pre →
  let now_logs := logs (tables_of (main_loop pre s)) in
  (main_files format_timestamp (pre ++ [MenuExport]) s fs).2 !! EXPORT_FILE
  = Some (to_csv format_timestamp (logs_frame now_logs))
  ∧ (main_files format_timestamp (pre ++ [MenuExit]) s fs).2 !! LOGS_FILE
    = Some (to_csv format_timestamp (logs_frame now_logs))
  ∧ EXPORT_FILE ∉ [BOOKS_FILE; USERS_FILE; LOGS_FILE].
Proof.
  intros Hpre. cbv zeta.
  destruct (main_loop_running pre s Hpre) as [s' Hrun].
  pose proof (main_files_session format_timestamp pre s fs) as Hsession.
  rewrite Hrun in *. rewrite !main_files_app.
  destruct (main_files format_timestamp pre s fs) as [x fs']. simpl in Hsession.
  subst x. simpl. split; [|split].
  - unfold export_logs. by rewrite fin_maps.lookup_insert_eq.
  - rewrite save_files_lookup. by rewrite decide_True.
  - by compute_done.
Qed.
End export_facts.

Lemma export_writes_current_log_witness :
  (main_files pretty
     ([MenuAdd "B1" "Emma" "Austen" (Some 2); MenuIssue "U1" "Alice" "B1" 1000]
      ++ [MenuExport])
     empty_tables (∅ : file_system)).2 !! EXPORT_FILE
  = Some (Csv LOGS_COLUMNS [["U1"; "B1"; "Issued"; "1000"]]).
Proof.
  refine (proj1 (export_writes_current_log pretty
            [MenuAdd "B1" "Emma" "Austen" (Some 2); MenuIssue "U1" "Alice" "B1" 1000]
            empty_tables ∅ _)).
  by compute_done.
Defined.
